(** * ds_oc: polling-interval patch/restore engine for the DualSense controller

    A shallow embedding of [ds_oc.c].  The kernel objects the module
    touches (USB devices, their active configuration, interfaces and endpoint
    descriptors) are records; the module's file-scope variables and the
    kernel memory they point into form one explicit state record that every
    entry point transforms.  Calls into the USB core whose outcome the module
    cannot determine (lock, reset) take their return value from an explicit
    environment argument and are logged in a call trace.

    Conventions: C integers are [Z], and a store into a [__u8] field keeps
    the low eight bits; a C array is a list and an index loop visits the
    elements below its bound; [NULL] is [None]; [printk] has no effect on
    the state and is left out; [usb_reset_device] is a logged call that
    leaves the descriptors in memory as the module wrote them. *)

From Stdlib Require Import ZArith Lia Bool.
From stdpp Require Import base option list gmap.

Local Open Scope Z_scope.

(** ** Constants *)

Definition MAX_PATCHED_EPS : Z := 2.
Definition DS_VID : Z := 0x054c.
Definition DS_PID : Z := 0x0ce6.

(** Values of the kernel headers the source refers to by name. *)
Definition USB_CLASS_HID : Z := 3.
Definition USB_DEVICE_ADD : Z := 1.
Definition USB_DEVICE_REMOVE : Z := 2.
Definition USB_ENDPOINT_XFERTYPE_MASK : Z := 0x03.
Definition USB_ENDPOINT_XFER_INT : Z := 3.
Definition USB_ENDPOINT_DIR_MASK : Z := 0x80.
Definition USB_DIR_IN : Z := 0x80.
Definition USB_DIR_OUT : Z := 0.

(** ** Data model *)

(** [struct ep_restore_info]: [__u8 ep_address] and
    [unsigned short original_interval]. *)
Record ep_restore_info := {
  ep_address : Z;
  original_interval : Z
}.

(** [struct usb_endpoint_descriptor], the three fields the module reads;
    all of them are [__u8]. *)
Record usb_endpoint_descriptor := {
  bEndpointAddress : Z;
  bmAttributes : Z;
  bInterval : Z
}.

(** [struct usb_host_interface]: the interface descriptor fields and the
    endpoint array of one alternate setting.  A [usb_host_endpoint] is
    represented by its descriptor, the only member the module uses. *)
Record usb_host_interface := {
  bInterfaceNumber : Z;
  bInterfaceClass : Z;
  bNumEndpoints : Z;
  endpoint : list usb_endpoint_descriptor
}.

(** [struct usb_interface]; [cur_altsetting] may be [NULL]. *)
Record usb_interface := {
  cur_altsetting : option usb_host_interface
}.

(** [struct usb_host_config]; entries of [interface] may be [NULL]. *)
Record usb_host_config := {
  bNumInterfaces : Z;
  interface : list (option usb_interface)
}.

(** [struct usb_device]; [refcount] stands for the reference count that
    [usb_get_dev] and [usb_put_dev] move. *)
Record usb_device := {
  idVendor : Z;
  idProduct : Z;
  actconfig : option usb_host_config;
  refcount : Z
}.

(** Calls into the USB core that the engine makes when it applies changes. *)
Inductive usb_call :=
  | Lock_for_reset (dev : Z)
  | Reset_device (dev : Z)
  | Unlock_device (dev : Z).

(** What the USB core answers to one scoped apply: the return values of
    [usb_lock_device_for_reset] and [usb_reset_device]. *)
Record usb_core := {
  ret_lock : Z;
  ret_reset : Z
}.

(** The module's file-scope variables, the kernel memory holding the USB
    devices (a pointer is the key of its device) and the log of calls made
    into the USB core. *)
Record module_state := {
  restore_infos : list ep_restore_info;
  num_actually_patched_eps : Z;
  dualsense_device : option Z;
  configured_interval : Z;
  devices : gmap Z usb_device;
  calls : list usb_call
}.

(** ** Kernel helpers *)

(** Modelled from the spec: the predicates "is this an interrupt-in /
    interrupt-out endpoint" that the device descriptor access interface
    exposes.  They are the inline helpers of the kernel's usb/ch9.h, which
    the repository includes but does not contain: the transfer type is in
    the low two bits of [bmAttributes], the direction in bit 7 of
    [bEndpointAddress]. *)
Definition usb_endpoint_xfer_int (epd : usb_endpoint_descriptor) : bool :=
  Z.land (bmAttributes epd) USB_ENDPOINT_XFERTYPE_MASK =? USB_ENDPOINT_XFER_INT.

(** Modelled from the spec: the direction half of the same predicates,
    inbound. *)
Definition usb_endpoint_dir_in (epd : usb_endpoint_descriptor) : bool :=
  Z.land (bEndpointAddress epd) USB_ENDPOINT_DIR_MASK =? USB_DIR_IN.

(** Modelled from the spec: the direction half of the same predicates,
    outbound. *)
Definition usb_endpoint_dir_out (epd : usb_endpoint_descriptor) : bool :=
  Z.land (bEndpointAddress epd) USB_ENDPOINT_DIR_MASK =? USB_DIR_OUT.

(** Modelled from the spec: "is this an interrupt-in endpoint". *)
Definition usb_endpoint_is_int_in (epd : usb_endpoint_descriptor) : bool :=
  usb_endpoint_xfer_int epd && usb_endpoint_dir_in epd.

(** Modelled from the spec: "is this an interrupt-out endpoint". *)
Definition usb_endpoint_is_int_out (epd : usb_endpoint_descriptor) : bool :=
  usb_endpoint_xfer_int epd && usb_endpoint_dir_out epd.

(** The reference count of a device moves by [k]. *)
Definition ref_add (k : Z) (d : usb_device) : usb_device :=
  {| idVendor := idVendor d; idProduct := idProduct d;
     actconfig := actconfig d; refcount := refcount d + k |}.

(** Modelled from the spec: acquiring ownership increments the reference
    count of the device, releasing decrements it; [usb_get_dev] and
    [usb_put_dev] are the USB core's. *)
Definition usb_get_dev (p : Z) (m : gmap Z usb_device) : gmap Z usb_device :=
  alter (ref_add 1) p m.

(** Modelled from the spec: releasing ownership, see [usb_get_dev]. *)
Definition usb_put_dev (p : Z) (m : gmap Z usb_device) : gmap Z usb_device :=
  alter (ref_add (-1)) p m.

(** ** The patch/restore engine *)

(** The part of the state the endpoint loop reads and writes: the two
    globals of the Interval Store and the local [changed_anything]. *)
Record walk_state := {
  w_infos : list ep_restore_info;
  w_num : Z;
  w_changed : bool
}.

(** The scan [for (k = 0; k < num_actually_patched_eps; ++k)] of the restore
    branch: the first stored entry with the endpoint's address. *)
Fixpoint find_restore_info (addr : Z) (infos : list ep_restore_info) : option Z :=
  match infos with
  | [] => None
  | r :: rest =>
      if ep_address r =? addr then Some (original_interval r)
      else find_restore_info addr rest
  end.

(** The scan over the entries below the count. *)
Definition lookup_original (infos : list ep_restore_info) (num : Z) (addr : Z)
  : option Z :=
  find_restore_info addr (take (Z.to_nat num) infos).

(** Assignment to the [__u8] field [bInterval] keeps the low eight bits. *)
Definition set_bInterval (v : Z) (e : usb_endpoint_descriptor)
  : usb_endpoint_descriptor :=
  {| bEndpointAddress := bEndpointAddress e; bmAttributes := bmAttributes e;
     bInterval := v mod 2 ^ 8 |}.

(** First half of the loop body: the value for [target_binterval], or
    [None] where the source says [continue]. *)
Definition choose_target (restore : bool) (cfg_interval : Z)
  (e : usb_endpoint_descriptor) (w : walk_state) : option (Z * walk_state) :=
  if restore then
    match lookup_original (w_infos w) (w_num w) (bEndpointAddress e) with
    | Some orig => Some (orig, w)
    | None => None
    end
  else if w_num w <? MAX_PATCHED_EPS then
    Some (cfg_interval,
          {| w_infos := <[Z.to_nat (w_num w) :=
                            {| ep_address := bEndpointAddress e;
                               original_interval := bInterval e |}]> (w_infos w);
             w_num := w_num w; w_changed := w_changed w |})
  else None.

(** The body of the endpoint loop. *)
Definition visit_endpoint (restore : bool) (cfg_interval : Z)
  (e : usb_endpoint_descriptor) (w : walk_state)
  : usb_endpoint_descriptor * walk_state :=
  if usb_endpoint_is_int_in e || usb_endpoint_is_int_out e then
    match choose_target restore cfg_interval e w with
    | None => (e, w)
    | Some (target_binterval, w1) =>
        if negb (bInterval e =? target_binterval) then
          (set_bInterval target_binterval e,
           {| w_infos := w_infos w1;
              w_num := if restore then w_num w1 else w_num w1 + 1;
              w_changed := true |})
        else (e, w1)
    end
  else (e, w).

(** [for (ep_idx = 0; ep_idx < bNumEndpoints; ++ep_idx)] over the endpoints
    the loop reaches. *)
Fixpoint walk_endpoints (restore : bool) (cfg_interval : Z)
  (eps : list usb_endpoint_descriptor) (w : walk_state)
  : list usb_endpoint_descriptor * walk_state :=
  match eps with
  | [] => ([], w)
  | e :: rest =>
      let '(e', w1) := visit_endpoint restore cfg_interval e w in
      let '(rest', w2) := walk_endpoints restore cfg_interval rest w1 in
      (e' :: rest', w2)
  end.

(** The endpoint loop on one alternate setting: it visits the first
    [bNumEndpoints] entries of the endpoint array and leaves the rest. *)
Definition walk_altsetting (restore : bool) (cfg_interval : Z)
  (alt : usb_host_interface) (w : walk_state) : usb_host_interface * walk_state :=
  let n := Z.to_nat (bNumEndpoints alt) in
  let '(eps', w') := walk_endpoints restore cfg_interval (take n (endpoint alt)) w in
  ({| bInterfaceNumber := bInterfaceNumber alt;
      bInterfaceClass := bInterfaceClass alt;
      bNumEndpoints := bNumEndpoints alt;
      endpoint := eps' ++ drop n (endpoint alt) |}, w').

(** The interface loop: [NULL] interfaces and interfaces without a current
    alternate setting are passed over, the first HID interface is walked and
    the loop stops there ([break]). *)
Fixpoint walk_interfaces (restore : bool) (cfg_interval : Z)
  (ifs : list (option usb_interface)) (w : walk_state)
  : list (option usb_interface) * walk_state :=
  match ifs with
  | [] => ([], w)
  | None :: rest =>
      let '(rest', w') := walk_interfaces restore cfg_interval rest w in
      (None :: rest', w')
  | Some intf :: rest =>
      match cur_altsetting intf with
      | None =>
          let '(rest', w') := walk_interfaces restore cfg_interval rest w in
          (Some intf :: rest', w')
      | Some alt =>
          if bInterfaceClass alt =? USB_CLASS_HID then
            let '(alt', w') := walk_altsetting restore cfg_interval alt w in
            (Some {| cur_altsetting := Some alt' |} :: rest, w')
          else
            let '(rest', w') := walk_interfaces restore cfg_interval rest w in
            (Some intf :: rest', w')
      end
  end.

(** The interface loop on a configuration: indices below [bNumInterfaces]. *)
Definition walk_config (restore : bool) (cfg_interval : Z)
  (cfg : usb_host_config) (w : walk_state) : usb_host_config * walk_state :=
  let n := Z.to_nat (bNumInterfaces cfg) in
  let '(ifs', w') := walk_interfaces restore cfg_interval (take n (interface cfg)) w in
  ({| bNumInterfaces := bNumInterfaces cfg;
      interface := ifs' ++ drop n (interface cfg) |}, w').

(** The scoped apply at the end of the engine: lock, reset, and unlock only
    if the lock was obtained. *)
Definition scoped_apply (env : usb_core) (p : Z) : list usb_call :=
  [Lock_for_reset p; Reset_device p]
    ++ (if ret_lock env =? 0 then [Unlock_device p] else []).

(** What the engine sees when it starts: the managed device and its active
    configuration, if both are there. *)
Definition managed_config (st : module_state)
  : option (Z * usb_device * usb_host_config) :=
  match dualsense_device st with
  | None => None
  | Some p =>
      match devices st !! p with
      | None => None
      | Some d =>
          match actconfig d with
          | None => None
          | Some cfg => Some (p, d, cfg)
          end
      end
  end.

(** The store as the loops start with it: a patch resets the entry count. *)
Definition initial_walk (restore : bool) (st : module_state) : walk_state :=
  {| w_infos := restore_infos st;
     w_num := if restore then num_actually_patched_eps st else 0;
     w_changed := false |}.

(** [patch_or_restore_dualsense_endpoints].  A managed pointer that refers
    to no device of the model is treated like the [NULL] case. *)
Definition patch_or_restore_dualsense_endpoints (restore : bool) (env : usb_core)
  (st : module_state) : module_state :=
  match managed_config st with
  | None => st
  | Some (p, d, cfg) =>
      let '(cfg', w) :=
        walk_config restore (configured_interval st) cfg (initial_walk restore st) in
      let d' := {| idVendor := idVendor d; idProduct := idProduct d;
                   actconfig := Some cfg'; refcount := refcount d |} in
      {| restore_infos := w_infos w;
         num_actually_patched_eps := w_num w;
         dualsense_device := dualsense_device st;
         configured_interval := configured_interval st;
         devices := <[p := d']> (devices st);
         calls := calls st ++ (if w_changed w then scoped_apply env p else []) |}
  end.

(** The value of the local [changed_anything] when the loops are done. *)
Definition changed_anything (restore : bool) (st : module_state) : bool :=
  match managed_config st with
  | None => false
  | Some (p, d, cfg) =>
      w_changed (walk_config restore (configured_interval st) cfg
                   (initial_walk restore st)).2
  end.

(** ** Device lifecycle tracker *)

(** Assignments to [dualsense_device], to the reference counts and to
    [num_actually_patched_eps]. *)
Definition with_device (o : option Z) (m : gmap Z usb_device) (num : Z)
  (st : module_state) : module_state :=
  {| restore_infos := restore_infos st;
     num_actually_patched_eps := num;
     dualsense_device := o;
     configured_interval := configured_interval st;
     devices := m;
     calls := calls st |}.

(** The filter both callbacks apply: vendor and product of the DualSense. *)
Definition is_dualsense (d : usb_device) : bool :=
  (idVendor d =? DS_VID) && (idProduct d =? DS_PID).

(** [on_usb_notify]; the result is always [NOTIFY_OK], so only the state is
    returned.  An event whose pointer refers to no device of the model
    changes nothing. *)
Definition on_usb_notify (env : usb_core) (action : Z) (udev : Z)
  (st : module_state) : module_state :=
  match devices st !! udev with
  | None => st
  | Some device =>
      if negb (is_dualsense device) then st
      else if action =? USB_DEVICE_ADD then
        match dualsense_device st with
        | None =>
            patch_or_restore_dualsense_endpoints false env
              (with_device (Some udev) (usb_get_dev udev (devices st))
                 (num_actually_patched_eps st) st)
        | Some _ => st
        end
      else if action =? USB_DEVICE_REMOVE then
        if decide (dualsense_device st = Some udev) then
          with_device None (usb_put_dev udev (devices st)) 0 st
        else st
      else st
  end.

(** [check_existing_device_cb]: the visitor's return value (non-zero stops
    the enumeration) and the new state. *)
Definition check_existing_device_cb (env : usb_core) (udev : Z)
  (st : module_state) : Z * module_state :=
  match devices st !! udev with
  | None => (0, st)
  | Some device =>
      if is_dualsense device then
        match dualsense_device st with
        | None =>
            (1, patch_or_restore_dualsense_endpoints false env
                  (with_device (Some udev) (usb_get_dev udev (devices st))
                     (num_actually_patched_eps st) st))
        | Some _ => (1, st)
        end
      else (0, st)
  end.

(** [usb_for_each_dev] with the visitor above, over the devices present in
    the order the USB core hands them out. *)
Fixpoint usb_for_each_dev (env : usb_core) (present : list Z)
  (st : module_state) : module_state :=
  match present with
  | [] => st
  | p :: rest =>
      let '(r, st') := check_existing_device_cb env p st in
      if r =? 0 then usb_for_each_dev env rest st' else st'
  end.

(** ** Configuration surface *)

(** Assignment to [configured_interval]. *)
Definition with_interval (v : Z) (st : module_state) : module_state :=
  {| restore_infos := restore_infos st;
     num_actually_patched_eps := num_actually_patched_eps st;
     dualsense_device := dualsense_device st;
     configured_interval := v;
     devices := devices st;
     calls := calls st |}.

(** The validation both [ds_oc_init] and [on_interval_changed] apply to
    [configured_interval]. *)
Definition clamp_configured_interval (st : module_state) : module_state :=
  if configured_interval st =? 0 then with_interval 1 st
  else if configured_interval st >? 255 then with_interval 255 st
  else st.

(** [ds_oc_init], given the devices present at load time. *)
Definition ds_oc_init (env : usb_core) (present : list Z) (st : module_state)
  : module_state :=
  usb_for_each_dev env present (clamp_configured_interval st).

(** [ds_oc_exit]. *)
Definition ds_oc_exit (env : usb_core) (st : module_state) : module_state :=
  match dualsense_device st with
  | None => st
  | Some p =>
      let st' := patch_or_restore_dualsense_endpoints true env st in
      with_device None (usb_put_dev p (devices st'))
        (num_actually_patched_eps st') st'
  end.

(** [on_interval_changed].  [param_set_ushort] belongs to the kernel: its
    return value [ret] and, when that is zero, the [unsigned short] it parsed
    and stored into [configured_interval] are inputs. *)
Definition on_interval_changed (env : usb_core) (ret : Z) (parsed : Z)
  (st : module_state) : Z * module_state :=
  if ret =? 0 then
    let st1 := clamp_configured_interval (with_interval parsed st) in
    match dualsense_device st1 with
    | Some _ => (ret, patch_or_restore_dualsense_endpoints false env st1)
    | None => (ret, st1)
    end
  else (ret, st).

(** ** Event sequences *)

(** What reaches the tracker from outside: a hotplug notification or a
    visit of the initial enumeration, each with the answers the USB core
    gives if the engine applies changes. *)
Inductive event :=
  | Notify (env : usb_core) (action : Z) (udev : Z)
  | Visit (env : usb_core) (udev : Z).

Definition step (st : module_state) (ev : event) : module_state :=
  match ev with
  | Notify env action udev => on_usb_notify env action udev st
  | Visit env udev => (check_existing_device_cb env udev st).2
  end.

Definition run (evs : list event) (st : module_state) : module_state :=
  foldl step st evs.

(** ** Views used in the statements *)

(** The first HID interface of a list of interfaces, as the interface loop
    finds it. *)
Fixpoint find_hid (ifs : list (option usb_interface)) : option usb_host_interface :=
  match ifs with
  | [] => None
  | None :: rest => find_hid rest
  | Some intf :: rest =>
      match cur_altsetting intf with
      | None => find_hid rest
      | Some alt =>
          if bInterfaceClass alt =? USB_CLASS_HID then Some alt else find_hid rest
      end
  end.

(** The endpoints the engine walks on a configuration. *)
Definition config_hid_endpoints (cfg : usb_host_config)
  : option (list usb_endpoint_descriptor) :=
  match find_hid (take (Z.to_nat (bNumInterfaces cfg)) (interface cfg)) with
  | None => None
  | Some alt => Some (take (Z.to_nat (bNumEndpoints alt)) (endpoint alt))
  end.

(** The endpoints the engine walks in a state: those of the HID interface
    of the managed device. *)
Definition hid_endpoints (st : module_state)
  : option (list usb_endpoint_descriptor) :=
  match managed_config st with
  | None => None
  | Some (_, _, cfg) => config_hid_endpoints cfg
  end.

(** The Interval Store's answer for an address in a state. *)
Definition lookupOriginal (st : module_state) (addr : Z) : option Z :=
  lookup_original (restore_infos st) (num_actually_patched_eps st) addr.

(** The test that guards the loop body. *)
Definition is_interrupt (e : usb_endpoint_descriptor) : bool :=
  usb_endpoint_is_int_in e || usb_endpoint_is_int_out e.

(** Interrupt endpoints whose interval differs from a target: the ones a
    patch with that target rewrites while the store has room. *)
Definition needs_patch (target : Z) (e : usb_endpoint_descriptor) : bool :=
  is_interrupt e && negb (bInterval e =? target).

(** Addresses of the interrupt endpoints of a list. *)
Definition interrupt_addresses (eps : list usb_endpoint_descriptor) : list Z :=
  bEndpointAddress <$> filter (fun e => is_interrupt e = true) eps.

(** The two modes of the engine. *)
Definition Patch := patch_or_restore_dualsense_endpoints false.
Definition Restore := patch_or_restore_dualsense_endpoints true.

(** ** The loops in closed form *)

(** The entries the store holds: the first [num_actually_patched_eps]. *)
Definition committed (w : walk_state) : list ep_restore_info :=
  take (Z.to_nat (w_num w)) (w_infos w).

(** The entry a patch records for an endpoint. *)
Definition entry_of (e : usb_endpoint_descriptor) : ep_restore_info :=
  {| ep_address := bEndpointAddress e; original_interval := bInterval e |}.

(** Free slots of the store. *)
Definition room (w : walk_state) : nat := Z.to_nat (MAX_PATCHED_EPS - w_num w).

(** The array after [restore_infos[num_actually_patched_eps]] is written. *)
Definition record_slot (e : usb_endpoint_descriptor) (w : walk_state)
  : list ep_restore_info :=
  <[Z.to_nat (w_num w) := entry_of e]> (w_infos w).

(** The value a restore computes for an endpoint from the stored entries. *)
Definition restore_target (store : list ep_restore_info)
  (e : usb_endpoint_descriptor) : option Z :=
  if is_interrupt e then find_restore_info (bEndpointAddress e) store else None.

(** Whether a restore writes the endpoint. *)
Definition restore_changes (store : list ep_restore_info)
  (e : usb_endpoint_descriptor) : bool :=
  match restore_target store e with
  | Some v => negb (bInterval e =? v)
  | None => false
  end.

(** The endpoint as a restore leaves it. *)
Definition restored (store : list ep_restore_info)
  (e : usb_endpoint_descriptor) : usb_endpoint_descriptor :=
  match restore_target store e with
  | Some v => if negb (bInterval e =? v) then set_bInterval v e else e
  | None => e
  end.

(** Assignment to [changed_anything]. *)
Definition with_changed (b : bool) (w : walk_state) : walk_state :=
  {| w_infos := w_infos w; w_num := w_num w; w_changed := b |}.

(** ** Notions used in the statements *)

(** The [i]-th endpoint the engine walks. *)
Definition endpoint_at (st : module_state) (i : nat)
  : option usb_endpoint_descriptor :=
  match hid_endpoints st with
  | Some eps => eps !! i
  | None => None
  end.

(** The interval of the [i]-th endpoint the engine walks. *)
Definition interval_at (st : module_state) (i : nat) : option Z :=
  bInterval <$> endpoint_at st i.

(** The entries the store holds in a state. *)
Definition store_of (st : module_state) : list ep_restore_info :=
  take (Z.to_nat (num_actually_patched_eps st)) (restore_infos st).

(** The array [restore_infos] has [MAX_PATCHED_EPS] elements. *)
Definition store_sized (st : module_state) : Prop :=
  length (restore_infos st) = Z.to_nat MAX_PATCHED_EPS.

(** The recorded originals fit the [__u8] field they are written back to. *)
Definition store_in_range (store : list ep_restore_info) : Prop :=
  Forall (λ r, 0 ≤ original_interval r < 256) store.

(** Descriptor intervals are [__u8] values. *)
Definition intervals_in_range (eps : list usb_endpoint_descriptor) : Prop :=
  Forall (λ e, 0 ≤ bInterval e < 256) eps.

(** Two descriptors of the same endpoint: address and attributes agree;
    the engine writes neither. *)
Definition same_endpoint (a b : usb_endpoint_descriptor) : Prop :=
  bEndpointAddress a = bEndpointAddress b ∧ bmAttributes a = bmAttributes b.

(** What identifies a device to the tracker, and its reference count. *)
Definition identity_of (d : usb_device) : Z * Z * Z :=
  (idVendor d, idProduct d, refcount d).

(** Whenever a device is managed, its pointer is valid and it passed the
    vendor/product filter. *)
Definition tracker_inv (st : module_state) : Prop :=
  ∀ p, dualsense_device st = Some p →
       ∃ d, devices st !! p = Some d ∧ is_dualsense d = true.

(** The references the module holds, measured against a state [st0] in
    which it held none: one on the managed device, none on any other. *)
Definition holds_only_managed (st0 st : module_state) : Prop :=
  ∀ p d0, devices st0 !! p = Some d0 →
    ∃ d, devices st !! p = Some d
         ∧ refcount d =
           refcount d0 + (if decide (dualsense_device st = Some p) then 1 else 0).

(** ** Concrete devices *)

(** A DualSense as the module meets it: an audio interface and the HID
    interface with its interrupt IN and interrupt OUT endpoint, both polled
    at interval 6. *)
Definition ds_ep_in : usb_endpoint_descriptor :=
  {| bEndpointAddress := 0x84; bmAttributes := 0x03; bInterval := 6 |}.
Definition ds_ep_out : usb_endpoint_descriptor :=
  {| bEndpointAddress := 0x03; bmAttributes := 0x03; bInterval := 6 |}.

Definition ds_audio : usb_interface :=
  {| cur_altsetting :=
       Some {| bInterfaceNumber := 0; bInterfaceClass := 1;
               bNumEndpoints := 0; endpoint := [] |} |}.

Definition hid_interface (n : Z) (eps : list usb_endpoint_descriptor)
  : usb_interface :=
  {| cur_altsetting :=
       Some {| bInterfaceNumber := n; bInterfaceClass := USB_CLASS_HID;
               bNumEndpoints := Z.of_nat (length eps); endpoint := eps |} |}.

Definition ds_device (eps : list usb_endpoint_descriptor) : usb_device :=
  {| idVendor := DS_VID; idProduct := DS_PID;
     actconfig :=
       Some {| bNumInterfaces := 2;
               interface := [Some ds_audio; Some (hid_interface 3 eps)] |};
     refcount := 1 |}.

Definition ds_ptr : Z := 0x1000.
Definition ds_ptr' : Z := 0x2000.

Definition empty_info : ep_restore_info :=
  {| ep_address := 0; original_interval := 0 |}.

(** The module right after loading, with the devices [m] on the bus. *)
Definition loaded (rate : Z) (m : gmap Z usb_device) : module_state :=
  {| restore_infos := [empty_info; empty_info];
     num_actually_patched_eps := 0;
     dualsense_device := None;
     configured_interval := rate;
     devices := m;
     calls := [] |}.

(** The same with the device at [p] taken under management, before the
    engine runs. *)
Definition acquired (rate : Z) (p : Z) (m : gmap Z usb_device) : module_state :=
  with_device (Some p) (usb_get_dev p m) 0 (loaded rate m).

Definition ds_bus : gmap Z usb_device :=
  {[ ds_ptr := ds_device [ds_ep_in; ds_ep_out] ]}.

Definition ds_two_bus : gmap Z usb_device :=
  <[ ds_ptr' := ds_device [ds_ep_in; ds_ep_out] ]> ds_bus.

(** A device whose HID interface has three interrupt endpoints. *)
Definition tri_ep (addr : Z) : usb_endpoint_descriptor :=
  {| bEndpointAddress := addr; bmAttributes := 0x03; bInterval := 6 |}.

Definition tri_bus : gmap Z usb_device :=
  {[ ds_ptr := ds_device [tri_ep 0x81; tri_ep 0x02; tri_ep 0x83] ]}.

Definition core_ok : usb_core := {| ret_lock := 0; ret_reset := 0 |}.
Definition core_lock_fails : usb_core := {| ret_lock := -16; ret_reset := -19 |}.

(** A device whose interrupt IN endpoint is polled at interval 1 already. *)
Definition fast_ep_in : usb_endpoint_descriptor :=
  {| bEndpointAddress := 0x84; bmAttributes := 0x03; bInterval := 1 |}.

Definition fast_bus : gmap Z usb_device :=
  {[ ds_ptr := ds_device [fast_ep_in; ds_ep_out] ]}.

(** ** The device memory after a walk *)

(** An alternate setting whose walked endpoints are replaced by [eps']. *)
Definition put_endpoints (alt : usb_host_interface)
  (eps' : list usb_endpoint_descriptor) : usb_host_interface :=
  {| bInterfaceNumber := bInterfaceNumber alt;
     bInterfaceClass := bInterfaceClass alt;
     bNumEndpoints := bNumEndpoints alt;
     endpoint := eps' ++ drop (Z.to_nat (bNumEndpoints alt)) (endpoint alt) |}.

(** An interface list whose first HID interface gets the endpoints [eps'];
    what comes after that interface stays as it is. *)
Fixpoint put_hid (ifs : list (option usb_interface))
  (eps' : list usb_endpoint_descriptor) : list (option usb_interface) :=
  match ifs with
  | [] => []
  | None :: rest => None :: put_hid rest eps'
  | Some intf :: rest =>
      match cur_altsetting intf with
      | None => Some intf :: put_hid rest eps'
      | Some alt =>
          if bInterfaceClass alt =? USB_CLASS_HID then
            Some {| cur_altsetting := Some (put_endpoints alt eps') |} :: rest
          else Some intf :: put_hid rest eps'
      end
  end.

Definition config_put_hid (cfg : usb_host_config)
  (eps' : list usb_endpoint_descriptor) : usb_host_config :=
  {| bNumInterfaces := bNumInterfaces cfg;
     interface :=
       put_hid (take (Z.to_nat (bNumInterfaces cfg)) (interface cfg)) eps'
         ++ drop (Z.to_nat (bNumInterfaces cfg)) (interface cfg) |}.

Definition device_put_hid (d : usb_device)
  (eps' : list usb_endpoint_descriptor) : usb_device :=
  {| idVendor := idVendor d; idProduct := idProduct d;
     actconfig := (λ cfg, config_put_hid cfg eps') <$> actconfig d;
     refcount := refcount d |}.

(** The endpoints the engine would walk on a device. *)
Definition device_hid_endpoints (d : usb_device)
  : option (list usb_endpoint_descriptor) :=
  match actconfig d with
  | Some cfg => config_hid_endpoints cfg
  | None => None
  end.

(** ** Further notions used in the statements *)

(** The endpoint as a patch with room in the store leaves it. *)
Definition patched (target : Z) (e : usb_endpoint_descriptor)
  : usb_endpoint_descriptor :=
  if needs_patch target e then set_bInterval target e else e.

(** The layout the module is written for: at most [MAX_PATCHED_EPS]
    interrupt endpoints on the HID interface, with distinct addresses and
    [__u8] intervals. *)
Definition fits_store (eps : list usb_endpoint_descriptor) : Prop :=
  (length (interrupt_addresses eps) ≤ Z.to_nat MAX_PATCHED_EPS)%nat
  ∧ NoDup (interrupt_addresses eps)
  ∧ intervals_in_range eps.

(** The state in which the device at [p] has just been taken under
    management: slot set, reference taken. *)
Definition acquire (p : Z) (st : module_state) : module_state :=
  with_device (Some p) (usb_get_dev p (devices st))
    (num_actually_patched_eps st) st.

(** The first device of an enumeration that passes the vendor/product
    filter. *)
Fixpoint first_dualsense (m : gmap Z usb_device) (present : list Z) : option Z :=
  match present with
  | [] => None
  | p :: rest =>
      match m !! p with
      | Some d => if is_dualsense d then Some p else first_dualsense m rest
      | None => first_dualsense m rest
      end
  end.

(** Everything that can reach the loaded module from outside: a hotplug
    notification, a visit of the enumeration, a write to the parameter. *)
Inductive request :=
  | Hotplug (env : usb_core) (action : Z) (udev : Z)
  | Enumerated (env : usb_core) (udev : Z)
  | SetRate (env : usb_core) (ret : Z) (parsed : Z).

Definition serve (st : module_state) (r : request) : module_state :=
  match r with
  | Hotplug env action udev => on_usb_notify env action udev st
  | Enumerated env udev => (check_existing_device_cb env udev st).2
  | SetRate env ret parsed => (on_interval_changed env ret parsed st).2
  end.

Definition serve_all (rs : list request) (st : module_state) : module_state :=
  foldl serve st rs.

(** The target interval is in the range of the parameter's description. *)
Definition valid_rate (st : module_state) : Prop :=
  1 ≤ configured_interval st ≤ 255.

(** The entry count is an index into, or the size of, [restore_infos]. *)
Definition count_in_bounds (st : module_state) : Prop :=
  0 ≤ num_actually_patched_eps st ≤ MAX_PATCHED_EPS.

(** The device a call into the USB core is made on. *)
Definition call_device (c : usb_call) : Z :=
  match c with
  | Lock_for_reset p | Reset_device p | Unlock_device p => p
  end.

(** Every logged call was made on a DualSense. *)
Definition calls_on_dualsense (st : module_state) : Prop :=
  Forall (λ c, ∃ d, devices st !! call_device c = Some d
                    ∧ is_dualsense d = true) (calls st).

(** What the engine may do to one endpoint. *)
Definition interval_rewritten (e' e : usb_endpoint_descriptor) : Prop :=
  bEndpointAddress e' = bEndpointAddress e
  ∧ bmAttributes e' = bmAttributes e
  ∧ (e' = e ∨ (is_interrupt e = true ∧ 0 ≤ bInterval e' < 256)).

(** The values a walk may write are byte values: the target of a patch,
    the recorded originals of a restore. *)
Definition targets_in_range (restore : bool) (target : Z) (w : walk_state) : Prop :=
  if restore then store_in_range (committed w) else 0 ≤ target < 256.

(** A request as the kernel can deliver it: the value [param_set_ushort]
    parsed is an [unsigned short]. *)
Definition request_ok (r : request) : Prop :=
  match r with
  | SetRate _ _ parsed => 0 ≤ parsed < 65536
  | _ => True
  end.

(** What holds of the module's variables whenever no callback is running. *)
Definition module_inv (st : module_state) : Prop :=
  store_sized st ∧ count_in_bounds st ∧ valid_rate st ∧ tracker_inv st.

(** The references the module holds are those of [holds_only_managed], and
    the devices of [st0] keep their identity. *)
Definition same_identities (st0 st : module_state) : Prop :=
  ∀ q, is_dualsense <$> devices st !! q = is_dualsense <$> devices st0 !! q.

(** The whole life of the module: load, any requests, unload. *)
Definition lifetime (env1 : usb_core) (present : list Z) (rs : list request)
  (env2 : usb_core) (st0 : module_state) : module_state :=
  ds_oc_exit env2 (serve_all rs (ds_oc_init env1 present st0)).

(** A call made on a device that is a DualSense in the state [st0]. *)
Definition on_dualsense_of (st0 : module_state) (c : usb_call) : Prop :=
  ∃ d, devices st0 !! call_device c = Some d ∧ is_dualsense d = true.

(** What the module keeps true of the devices and of its calls: the managed
    pointer is a DualSense, no device changes its vendor or product, and
    every call so far was made on a DualSense. *)
Definition calls_inv (st0 st : module_state) : Prop :=
  tracker_inv st ∧ same_identities st0 st ∧ Forall (on_dualsense_of st0) (calls st).

(** ** Further concrete devices *)

(** A DualSense whose configuration shows the audio interface only. *)
Definition audio_only_device : usb_device :=
  {| idVendor := DS_VID; idProduct := DS_PID;
     actconfig := Some {| bNumInterfaces := 1; interface := [Some ds_audio] |};
     refcount := 1 |}.

Definition audio_only_bus : gmap Z usb_device := {[ ds_ptr := audio_only_device ]}.

(** A device with two HID interfaces, the second one behind the first. *)
Definition two_hid_config : usb_host_config :=
  {| bNumInterfaces := 3;
     interface := [Some ds_audio; Some (hid_interface 3 [ds_ep_in; ds_ep_out]);
                   Some (hid_interface 4 [tri_ep 0x85])] |}.

Definition two_hid_device : usb_device :=
  {| idVendor := DS_VID; idProduct := DS_PID;
     actconfig := Some two_hid_config; refcount := 1 |}.

Definition two_hid_bus : gmap Z usb_device := {[ ds_ptr := two_hid_device ]}.

(** A bulk endpoint, as an interface may have beside its interrupt ones. *)
Definition bulk_ep : usb_endpoint_descriptor :=
  {| bEndpointAddress := 0x86; bmAttributes := 0x02; bInterval := 0 |}.

Definition bulk_bus : gmap Z usb_device :=
  {[ ds_ptr := ds_device [bulk_ep; ds_ep_in; ds_ep_out] ]}.

(** A keyboard: not a DualSense. *)
Definition keyboard : usb_device :=
  {| idVendor := 0x046d; idProduct := 0xc31c;
     actconfig :=
       Some {| bNumInterfaces := 1;
               interface := [Some (hid_interface 0 [tri_ep 0x81])] |};
     refcount := 1 |}.

Definition kbd_ptr : Z := 0x3000.

Definition mixed_bus : gmap Z usb_device :=
  <[ kbd_ptr := keyboard ]> ds_two_bus.

(** ** The visits of the enumeration *)

(** The devices [usb_for_each_dev] calls the visitor on: it goes on while
    the visitor returns 0 and stops after the first other return value. *)
Fixpoint visited (env : usb_core) (present : list Z) (st : module_state)
  : list Z :=
  match present with
  | [] => []
  | p :: rest =>
      let '(r, st') := check_existing_device_cb env p st in
      p :: (if r =? 0 then visited env rest st' else [])
  end.

(** An enumeration cut after its first device that passes the
    vendor/product filter. *)
Fixpoint up_to_first_dualsense (m : gmap Z usb_device) (present : list Z)
  : list Z :=
  match present with
  | [] => []
  | p :: rest =>
      p :: match m !! p with
           | Some d => if is_dualsense d then [] else up_to_first_dualsense m rest
           | None => up_to_first_dualsense m rest
           end
  end.

(** A device whose third interrupt endpoint is the only one not yet polled
    at interval 1. *)
Definition late_ep (addr interval : Z) : usb_endpoint_descriptor :=
  {| bEndpointAddress := addr; bmAttributes := 0x03; bInterval := interval |}.

Definition late_bus : gmap Z usb_device :=
  {[ ds_ptr := ds_device [late_ep 0x81 1; late_ep 0x02 1; late_ep 0x83 6] ]}.

(** * Properties *)

(** ** The store scan *)

Lemma find_restore_info_app addr l1 l2 :
  find_restore_info addr (l1 ++ l2) =
  match find_restore_info addr l1 with
  | Some v => Some v
  | None => find_restore_info addr l2
  end.
Proof.
  induction l1 as [|r l1 IH]; simpl; [done|].
  destruct (ep_address r =? addr); [done|apply IH].
Qed.

Lemma find_restore_info_None addr l :
  Forall (fun r => ep_address r ≠ addr) l → find_restore_info addr l = None.
Proof.
  induction 1 as [|r l Hr _ IH]; simpl; [done|].
  destruct (Z.eqb_spec (ep_address r) addr); [done|apply IH].
Qed.

(** ** One visit *)

Lemma visit_endpoint_address restore T e w :
  bEndpointAddress (visit_endpoint restore T e w).1 = bEndpointAddress e
  ∧ bmAttributes (visit_endpoint restore T e w).1 = bmAttributes e.
Proof.
  unfold visit_endpoint.
  destruct (_ || _); [|done].
  destruct (choose_target restore T e w) as [[t w1]|]; [|done].
  destruct (negb _); done.
Qed.

Lemma visit_endpoint_not_interrupt restore T e w :
  is_interrupt e = false → visit_endpoint restore T e w = (e, w).
Proof. unfold is_interrupt, visit_endpoint. by intros ->. Qed.

(** In restore mode the store is read only. *)
Lemma visit_endpoint_restore_store T e w :
  w_infos (visit_endpoint true T e w).2 = w_infos w
  ∧ w_num (visit_endpoint true T e w).2 = w_num w.
Proof.
  unfold visit_endpoint, choose_target.
  destruct (_ || _); [|done].
  destruct (lookup_original _ _ _); [|done].
  destruct (negb _); done.
Qed.

(** ** The endpoint loop *)

Lemma walk_endpoints_app restore T l1 l2 w :
  walk_endpoints restore T (l1 ++ l2) w =
  ((walk_endpoints restore T l1 w).1
     ++ (walk_endpoints restore T l2 (walk_endpoints restore T l1 w).2).1,
   (walk_endpoints restore T l2 (walk_endpoints restore T l1 w).2).2).
Proof.
  revert w. induction l1 as [|e l1 IH]; intros w; simpl.
  - by destruct (walk_endpoints restore T l2 w).
  - destruct (visit_endpoint restore T e w) as [e' w1].
    rewrite IH.
    destruct (walk_endpoints restore T l1 w1) as [l1' w2]; simpl.
    by destruct (walk_endpoints restore T l2 w2).
Qed.

Lemma walk_endpoints_cons restore T e l w :
  walk_endpoints restore T (e :: l) w =
  ((visit_endpoint restore T e w).1
     :: (walk_endpoints restore T l (visit_endpoint restore T e w).2).1,
   (walk_endpoints restore T l (visit_endpoint restore T e w).2).2).
Proof.
  simpl. destruct (visit_endpoint restore T e w) as [e' w1]; simpl.
  by destruct (walk_endpoints restore T l w1).
Qed.

Lemma walk_endpoints_length restore T l w :
  length (walk_endpoints restore T l w).1 = length l.
Proof.
  revert w. induction l as [|e l IH]; intros w; [done|].
  rewrite walk_endpoints_cons. simpl. by rewrite IH.
Qed.

Lemma walk_endpoints_restore_store T l w :
  w_infos (walk_endpoints true T l w).2 = w_infos w
  ∧ w_num (walk_endpoints true T l w).2 = w_num w.
Proof.
  revert w. induction l as [|e l IH]; intros w; [done|].
  rewrite walk_endpoints_cons. simpl.
  destruct (IH (visit_endpoint true T e w).2) as [-> ->].
  apply visit_endpoint_restore_store.
Qed.

(** ** Patch mode *)

Lemma visit_endpoint_patch T e w :
  visit_endpoint false T e w =
  if is_interrupt e && (w_num w <? MAX_PATCHED_EPS) then
    if negb (bInterval e =? T) then
      (set_bInterval T e,
       {| w_infos := record_slot e w; w_num := w_num w + 1; w_changed := true |})
    else
      (e, {| w_infos := record_slot e w; w_num := w_num w;
             w_changed := w_changed w |})
  else (e, w).
Proof.
  unfold visit_endpoint, choose_target, is_interrupt.
  destruct (_ || _); simpl; [|done].
  destruct (w_num w <? MAX_PATCHED_EPS); simpl; [|done].
  destruct (negb _); done.
Qed.

Lemma filter_needs_patch_cons T e l :
  filter (λ x, needs_patch T x = true) (e :: l) =
  if needs_patch T e then e :: filter (λ x, needs_patch T x = true) l
  else filter (λ x, needs_patch T x = true) l.
Proof.
  destruct (needs_patch T e) eqn:H.
  - by rewrite filter_cons_True.
  - rewrite filter_cons_False; [done|]. by rewrite H.
Qed.

(** A patch walk appends to the committed entries those of the endpoints
    it rewrites, as far as there is room, and counts them. *)
Lemma walk_endpoints_patch_committed T eps w :
  0 ≤ w_num w →
  (Z.to_nat MAX_PATCHED_EPS ≤ length (w_infos w))%nat →
  let w' := (walk_endpoints false T eps w).2 in
  let new := take (room w) (filter (λ e, needs_patch T e = true) eps) in
  committed w' = committed w ++ (entry_of <$> new)
  ∧ w_num w' = w_num w + Z.of_nat (length new)
  ∧ length (w_infos w') = length (w_infos w).
Proof.
  revert w. induction eps as [|e eps IH]; intros w Hnum Hlen; cbv zeta.
  - rewrite filter_nil, take_nil. cbn. rewrite app_nil_r. split_and!; [done|lia|done].
  - rewrite walk_endpoints_cons, filter_needs_patch_cons. cbn [snd].
    rewrite visit_endpoint_patch.
    assert (needs_patch T e = is_interrupt e && negb (bInterval e =? T)) as ->
      by done.
    destruct (is_interrupt e) eqn:Hint; simpl; [|by apply IH].
    destruct (Z.ltb_spec (w_num w) MAX_PATCHED_EPS) as [Hlt|Hge]; cycle 1.
    { destruct (IH w Hnum Hlen) as (IH1 & IH2 & IH3).
      assert (room w = 0%nat) as Hroom by (unfold room; lia).
      simpl. rewrite Hroom in *. rewrite take_0 in *. done. }
    simpl.
    assert (Z.to_nat (w_num w) < length (w_infos w))%nat as Hslot by lia.
    destruct (negb (bInterval e =? T)) eqn:Hne.
    + set (w1 := {| w_infos := record_slot e w; w_num := w_num w + 1;
                    w_changed := true |}).
      destruct (IH w1) as (IH1 & IH2 & IH3).
      { simpl. lia. }
      { simpl. unfold record_slot. by rewrite length_insert. }
      assert (room w = S (room w1)) as Hroom by (unfold room; simpl; lia).
      rewrite Hroom. cbn [take fmap list_fmap length snd].
      rewrite IH1, IH2, IH3. split_and!.
      * unfold committed at 1. simpl. unfold record_slot.
        replace (Z.to_nat (w_num w + 1)) with (S (Z.to_nat (w_num w))) by lia.
        rewrite (take_S_r _ _ (entry_of e)).
        2:{ by apply list_lookup_insert_eq. }
        rewrite take_insert_ge by lia.
        unfold committed. by rewrite <- app_assoc.
      * simpl. lia.
      * simpl. unfold record_slot. by rewrite length_insert.
    + set (w1 := {| w_infos := record_slot e w; w_num := w_num w;
                    w_changed := w_changed w |}).
      destruct (IH w1) as (IH1 & IH2 & IH3).
      { simpl. lia. }
      { simpl. unfold record_slot. by rewrite length_insert. }
      assert (room w1 = room w) as Hroom by done.
      rewrite Hroom in *. cbn [snd]. rewrite IH1, IH2, IH3. split_and!.
      * unfold committed at 1. simpl. unfold record_slot.
        by rewrite take_insert_ge by lia.
      * done.
      * simpl. unfold record_slot. by rewrite length_insert.
Qed.

Lemma walk_endpoints_lookup_middle restore T pre e post w :
  (walk_endpoints restore T (pre ++ e :: post) w).1 !! length pre =
  Some (visit_endpoint restore T e (walk_endpoints restore T pre w).2).1.
Proof.
  rewrite walk_endpoints_app, walk_endpoints_cons. cbn [fst snd].
  rewrite <- (walk_endpoints_length restore T pre w).
  by rewrite list_lookup_middle.
Qed.

Lemma same_endpoint_is_interrupt a b :
  same_endpoint a b → is_interrupt a = is_interrupt b.
Proof.
  intros [Ha Hb].
  unfold is_interrupt, usb_endpoint_is_int_in, usb_endpoint_is_int_out,
    usb_endpoint_xfer_int, usb_endpoint_dir_in, usb_endpoint_dir_out.
  by rewrite Ha, Hb.
Qed.

Lemma walk_endpoints_same restore T eps w :
  Forall2 same_endpoint (walk_endpoints restore T eps w).1 eps.
Proof.
  revert w. induction eps as [|e eps IH]; intros w.
  - constructor.
  - rewrite walk_endpoints_cons. cbn [fst]. constructor; [|apply IH].
    apply visit_endpoint_address.
Qed.

Lemma same_endpoint_interrupt_addresses l1 l2 :
  Forall2 same_endpoint l1 l2 → interrupt_addresses l1 = interrupt_addresses l2.
Proof.
  unfold interrupt_addresses.
  induction 1 as [|a b l1 l2 Hab _ IH]; [done|].
  pose proof (same_endpoint_is_interrupt _ _ Hab) as Hi.
  destruct (is_interrupt b) eqn:Hb.
  - rewrite !filter_cons_True by done. cbn. rewrite IH. f_equal. apply Hab.
  - rewrite !filter_cons_False by (by rewrite ?Hi, ?Hb). apply IH.
Qed.

(** ** Restore mode *)

Lemma visit_endpoint_restore T e w :
  visit_endpoint true T e w =
  (restored (committed w) e,
   with_changed (w_changed w || restore_changes (committed w) e) w).
Proof.
  unfold visit_endpoint, choose_target, restored, restore_changes,
    restore_target, is_interrupt, lookup_original, committed, with_changed.
  destruct w as [infos num ch]; simpl.
  destruct (_ || _); simpl; [|by rewrite orb_false_r].
  destruct (find_restore_info _ _); simpl; [|by rewrite orb_false_r].
  destruct (negb _); simpl; by rewrite ?orb_true_r, ?orb_false_r.
Qed.

Lemma walk_endpoints_restore T eps w :
  walk_endpoints true T eps w =
  (restored (committed w) <$> eps,
   with_changed (w_changed w || existsb (restore_changes (committed w)) eps) w).
Proof.
  revert w. induction eps as [|e eps IH]; intros w.
  - destruct w; simpl. unfold with_changed; simpl. by rewrite orb_false_r.
  - rewrite walk_endpoints_cons, visit_endpoint_restore. cbn [fst snd].
    rewrite IH. unfold with_changed, committed; simpl.
    by rewrite orb_assoc.
Qed.

(** Once restored, an endpoint holds the stored value: restoring again
    finds nothing to change. *)
Lemma find_restore_info_elem addr store v :
  find_restore_info addr store = Some v →
  ∃ r, r ∈ store ∧ ep_address r = addr ∧ original_interval r = v.
Proof.
  induction store as [|r store IH]; simpl; [done|].
  destruct (Z.eqb_spec (ep_address r) addr) as [Heq|Hne].
  - intros [= <-]. exists r. split; [left|done].
  - intros H. destruct (IH H) as (r' & Hin & Hr'). exists r'. split; [by right|done].
Qed.

Lemma restored_same store e : same_endpoint (restored store e) e.
Proof.
  unfold restored. destruct (restore_target store e); [|done].
  destruct (negb _); done.
Qed.

Lemma restored_idem store e :
  Forall (λ r, 0 ≤ original_interval r < 256) store →
  restore_changes store (restored store e) = false
  ∧ restored store (restored store e) = restored store e.
Proof.
  intros Hstore.
  assert (restore_target store (restored store e) = restore_target store e) as Ht.
  { unfold restore_target.
    rewrite (same_endpoint_is_interrupt _ _ (restored_same store e)).
    by rewrite (proj1 (restored_same store e)). }
  assert (∀ v, restore_target store e = Some v →
            bInterval (restored store e) = v) as Hb.
  { intros v Hv. unfold restored. rewrite Hv.
    destruct (Z.eqb_spec (bInterval e) v) as [Heq|Hne]; simpl; [done|].
    unfold restore_target in Hv. destruct (is_interrupt e); [|done].
    apply find_restore_info_elem in Hv as (r & Hin & _ & <-).
    rewrite Forall_forall in Hstore. apply Z.mod_small, Hstore, Hin. }
  split.
  - unfold restore_changes. rewrite Ht.
    destruct (restore_target store e) as [v|] eqn:Hv; [|done].
    by rewrite (Hb v), Z.eqb_refl.
  - unfold restored at 1. rewrite Ht.
    destruct (restore_target store e) as [v|] eqn:Hv; [|done].
    by rewrite (Hb v), Z.eqb_refl.
Qed.

(** ** From the endpoint loop to the engine *)

Lemma take_app_drop_same {A} (n : nat) (l l' : list A) :
  length l' = length (take n l) → take n (l' ++ drop n l) = l'.
Proof.
  rewrite length_take. intros Hlen.
  destruct (decide (n ≤ length l)%nat) as [Hle|Hgt].
  - apply take_app_length'. lia.
  - rewrite drop_ge by lia. rewrite app_nil_r. apply take_ge. lia.
Qed.

Lemma walk_altsetting_spec restore T alt w :
  let eps := take (Z.to_nat (bNumEndpoints alt)) (endpoint alt) in
  let r := walk_endpoints restore T eps w in
  let alt' := (walk_altsetting restore T alt w).1 in
  (walk_altsetting restore T alt w).2 = r.2
  ∧ bInterfaceClass alt' = bInterfaceClass alt
  ∧ take (Z.to_nat (bNumEndpoints alt')) (endpoint alt') = r.1
  ∧ (r.1 = eps → alt' = alt).
Proof.
  cbv zeta. unfold walk_altsetting.
  pose proof (walk_endpoints_length restore T
                (take (Z.to_nat (bNumEndpoints alt)) (endpoint alt)) w) as Hlen.
  destruct (walk_endpoints _ _ _ _) as [eps' w']. cbn [fst snd] in *.
  split_and!; [done|done|by apply take_app_drop_same|].
  intros ->. rewrite take_drop. by destruct alt.
Qed.

Lemma walk_interfaces_length restore T ifs w :
  length (walk_interfaces restore T ifs w).1 = length ifs.
Proof.
  induction ifs as [|[intf|] ifs IH]; cbn [walk_interfaces]; [done| |].
  - destruct (cur_altsetting intf) as [alt|].
    + destruct (bInterfaceClass alt =? USB_CLASS_HID).
      * by destruct (walk_altsetting restore T alt w).
      * destruct (walk_interfaces restore T ifs w). cbn in *. by rewrite IH.
    + destruct (walk_interfaces restore T ifs w). cbn in *. by rewrite IH.
  - destruct (walk_interfaces restore T ifs w). cbn in *. by rewrite IH.
Qed.

Lemma walk_interfaces_spec restore T ifs w :
  match find_hid ifs with
  | None => walk_interfaces restore T ifs w = (ifs, w)
  | Some alt =>
      let r := walk_altsetting restore T alt w in
      (walk_interfaces restore T ifs w).2 = r.2
      ∧ find_hid (walk_interfaces restore T ifs w).1 = Some r.1
      ∧ (r.1 = alt → (walk_interfaces restore T ifs w).1 = ifs)
  end.
Proof.
  induction ifs as [|[intf|] ifs IH]; cbn [walk_interfaces find_hid]; [done| |].
  - destruct (cur_altsetting intf) as [alt|] eqn:Hcur.
    + destruct (bInterfaceClass alt =? USB_CLASS_HID) eqn:Hcls.
      * pose proof (walk_altsetting_spec restore T alt w) as (_ & Hc & _).
        destruct (walk_altsetting restore T alt w) as [alt' w'].
        cbn [fst snd find_hid cur_altsetting] in *. rewrite Hc, Hcls.
        split_and!; [done|done|]. intros ->. destruct intf. cbn in Hcur.
        by rewrite Hcur.
      * destruct (find_hid ifs) as [alt0|].
        -- destruct (walk_interfaces restore T ifs w) as [ifs' w'].
           cbn [fst snd find_hid] in *. rewrite Hcur, Hcls.
           destruct IH as (? & ? & Hid). split_and!; [done|done|].
           intros Heq. by rewrite (Hid Heq).
        -- by rewrite IH.
    + destruct (find_hid ifs) as [alt0|].
      * destruct (walk_interfaces restore T ifs w) as [ifs' w'].
        cbn [fst snd find_hid] in *. rewrite Hcur.
        destruct IH as (? & ? & Hid). split_and!; [done|done|].
        intros Heq. by rewrite (Hid Heq).
      * by rewrite IH.
  - destruct (find_hid ifs) as [alt0|].
    + destruct (walk_interfaces restore T ifs w) as [ifs' w'].
      cbn [fst snd find_hid] in *.
      destruct IH as (? & ? & Hid). split_and!; [done|done|].
      intros Heq. by rewrite (Hid Heq).
    + by rewrite IH.
Qed.

Lemma walk_config_spec restore T cfg w :
  match config_hid_endpoints cfg with
  | None => walk_config restore T cfg w = (cfg, w)
  | Some eps =>
      let r := walk_endpoints restore T eps w in
      (walk_config restore T cfg w).2 = r.2
      ∧ config_hid_endpoints (walk_config restore T cfg w).1 = Some r.1
      ∧ (r.1 = eps → (walk_config restore T cfg w).1 = cfg)
  end.
Proof.
  unfold config_hid_endpoints, walk_config.
  set (n := Z.to_nat (bNumInterfaces cfg)).
  pose proof (walk_interfaces_spec restore T (take n (interface cfg)) w) as Hspec.
  pose proof (walk_interfaces_length restore T (take n (interface cfg)) w) as Hlen.
  destruct (find_hid (take n (interface cfg))) as [alt|].
  - destruct (walk_interfaces _ _ _ _) as [ifs' w'].
    cbn [fst snd bNumInterfaces interface] in *.
    destruct Hspec as (Hw & Hfind & Hid).
    pose proof (walk_altsetting_spec restore T alt w) as (Ha & _ & Hb & Hc).
    fold n. rewrite (take_app_drop_same n _ _ Hlen), Hfind.
    split_and!.
    + by rewrite Hw, Ha.
    + by rewrite Hb.
    + intros Heq. rewrite (Hid (Hc Heq)), take_drop. by destruct cfg.
  - rewrite Hspec, take_drop. by destruct cfg.
Qed.

Lemma managed_config_Some st p d cfg :
  managed_config st = Some (p, d, cfg) →
  dualsense_device st = Some p ∧ devices st !! p = Some d
  ∧ actconfig d = Some cfg.
Proof.
  unfold managed_config.
  destruct (dualsense_device st) as [p'|]; [|done].
  destruct (devices st !! p') as [d'|] eqn:Hd; [|done].
  destruct (actconfig d') as [cfg'|] eqn:Hc; [|done].
  intros [= -> -> ->]. done.
Qed.

Lemma hid_endpoints_Some st eps :
  hid_endpoints st = Some eps →
  ∃ p d cfg, managed_config st = Some (p, d, cfg)
             ∧ config_hid_endpoints cfg = Some eps.
Proof.
  unfold hid_endpoints.
  destruct (managed_config st) as [[[p d] cfg]|]; [|done].
  intros H. by exists p, d, cfg.
Qed.

(** The engine on a managed device with a HID interface, in terms of the
    endpoint loop. *)
Lemma engine_hid restore env st eps :
  hid_endpoints st = Some eps →
  let r := walk_endpoints restore (configured_interval st) eps
             (initial_walk restore st) in
  let st' := patch_or_restore_dualsense_endpoints restore env st in
  hid_endpoints st' = Some r.1
  ∧ restore_infos st' = w_infos r.2
  ∧ num_actually_patched_eps st' = w_num r.2
  ∧ changed_anything restore st = w_changed r.2
  ∧ dualsense_device st' = dualsense_device st
  ∧ configured_interval st' = configured_interval st
  ∧ (∀ p, dualsense_device st = Some p →
          calls st' = calls st ++ (if w_changed r.2 then scoped_apply env p else []))
  ∧ (r.1 = eps → devices st' = devices st).
Proof.
  intros (p & d & cfg & Hm & Hc)%hid_endpoints_Some. cbv zeta.
  pose proof (managed_config_Some _ _ _ _ Hm) as (Hp & Hd & Ha).
  unfold patch_or_restore_dualsense_endpoints, changed_anything. rewrite Hm.
  pose proof (walk_config_spec restore (configured_interval st) cfg
                (initial_walk restore st)) as Hspec.
  rewrite Hc in Hspec. cbv zeta in Hspec. destruct Hspec as (Hw & Hh & Hid).
  destruct (walk_config _ _ _ _) as [cfg' w']. cbn [fst snd] in *. subst w'.
  split_and!; try done.
  - unfold hid_endpoints, managed_config. cbn. rewrite Hp.
    by rewrite lookup_insert_eq.
  - intros p' Hp'. assert (p' = p) as -> by congruence. done.
  - intros Heq. cbn. rewrite (Hid Heq). apply insert_id.
    rewrite Hd. f_equal. destruct d; cbn in *. by rewrite Ha.
Qed.

(** The engine where it finds no HID interface to walk. *)
Lemma engine_no_hid restore env st :
  hid_endpoints st = None →
  let st' := patch_or_restore_dualsense_endpoints restore env st in
  hid_endpoints st' = None
  ∧ devices st' = devices st
  ∧ calls st' = calls st
  ∧ changed_anything restore st = false
  ∧ restore_infos st' = restore_infos st
  ∧ (restore = true → num_actually_patched_eps st' = num_actually_patched_eps st)
  ∧ dualsense_device st' = dualsense_device st
  ∧ configured_interval st' = configured_interval st.
Proof.
  intros Hh. cbv zeta.
  unfold patch_or_restore_dualsense_endpoints, changed_anything.
  unfold hid_endpoints in Hh.
  destruct (managed_config st) as [[[p d] cfg]|] eqn:Hm.
  - pose proof (managed_config_Some _ _ _ _ Hm) as (Hp & Hd & Ha).
    pose proof (walk_config_spec restore (configured_interval st) cfg
                  (initial_walk restore st)) as Hspec.
    rewrite Hh in Hspec. rewrite Hspec. cbn.
    assert (<[p:={| idVendor := idVendor d; idProduct := idProduct d;
                    actconfig := Some cfg; refcount := refcount d |}]>
              (devices st) = devices st) as Hdev.
    { apply insert_id. rewrite Hd. f_equal. destruct d; cbn in *. by rewrite Ha. }
    split_and!; try done.
    + unfold hid_endpoints, managed_config. cbn. rewrite Hp, Hdev, Hd, Ha. done.
    + by rewrite app_nil_r.
    + by intros ->.
  - split_and!; try done. unfold hid_endpoints. by rewrite Hm.
Qed.

(** ** What the engine never touches *)

Lemma engine_frame restore env st :
  let st' := patch_or_restore_dualsense_endpoints restore env st in
  dualsense_device st' = dualsense_device st
  ∧ configured_interval st' = configured_interval st
  ∧ ∀ q, identity_of <$> devices st' !! q = identity_of <$> devices st !! q.
Proof.
  cbv zeta. unfold patch_or_restore_dualsense_endpoints.
  destruct (managed_config st) as [[[p d] cfg]|] eqn:Hm; [|done].
  apply managed_config_Some in Hm as (Hp & Hd & Ha).
  destruct (walk_config _ _ _ _) as [cfg' w']. cbn.
  split_and!; [done|done|]. intros q.
  destruct (decide (p = q)) as [<-|Hne].
  - by rewrite lookup_insert_eq, Hd.
  - by rewrite lookup_insert_ne.
Qed.

Lemma check_existing_device_cb_interval env p st :
  configured_interval (check_existing_device_cb env p st).2 =
  configured_interval st.
Proof.
  unfold check_existing_device_cb.
  destruct (devices st !! p) as [d|]; [|done].
  destruct (is_dualsense d); [|done].
  destruct (dualsense_device st); [done|]. cbn [snd].
  by rewrite (proj1 (proj2 (engine_frame _ _ _))).
Qed.

Lemma usb_for_each_dev_interval env present st :
  configured_interval (usb_for_each_dev env present st) = configured_interval st.
Proof.
  revert st. induction present as [|p present IH]; intros st; [done|].
  cbn [usb_for_each_dev].
  pose proof (check_existing_device_cb_interval env p st) as Hcb.
  destruct (check_existing_device_cb env p st) as [r st']. cbn [snd] in Hcb.
  destruct (r =? 0); [by rewrite IH|done].
Qed.

Lemma on_interval_changed_interval env raw st :
  configured_interval (on_interval_changed env 0 raw st).2 =
  configured_interval (clamp_configured_interval (with_interval raw st)).
Proof.
  unfold on_interval_changed. cbn [Z.eqb].
  destruct (dualsense_device _); [|done]. cbn [snd].
  by rewrite (proj1 (proj2 (engine_frame _ _ _))).
Qed.

(** A patch that finds every interrupt endpoint at the target writes
    nothing. *)
Lemma walk_endpoints_patch_at_target T eps w :
  Forall (λ e, is_interrupt e = true → bInterval e = T) eps →
  (walk_endpoints false T eps w).1 = eps
  ∧ w_changed (walk_endpoints false T eps w).2 = w_changed w.
Proof.
  intros Hall. revert w. induction Hall as [|e eps He _ IH]; intros w; [done|].
  rewrite walk_endpoints_cons, visit_endpoint_patch. cbn [fst snd].
  destruct (is_interrupt e) eqn:Hint; cbn [andb].
  - rewrite (He eq_refl), Z.eqb_refl. cbn [negb].
    destruct (w_num w <? MAX_PATCHED_EPS); cbn [fst snd].
    + destruct (IH {| w_infos := record_slot e w; w_num := w_num w;
                      w_changed := w_changed w |}) as [-> ->]. done.
    + destruct (IH w) as [-> ->]. done.
  - cbn [fst snd]. destruct (IH w) as [-> ->]. done.
Qed.

(** ** Restore leaves the store alone *)

Lemma restore_store_frame env st :
  restore_infos (Restore env st) = restore_infos st
  ∧ num_actually_patched_eps (Restore env st) = num_actually_patched_eps st.
Proof.
  unfold Restore. destruct (hid_endpoints st) as [eps|] eqn:Hh.
  - destruct (engine_hid true env st eps Hh) as (_ & -> & -> & _).
    apply walk_endpoints_restore_store.
  - destruct (engine_no_hid true env st Hh) as (_ & _ & _ & _ & -> & Hn & _).
    by rewrite Hn.
Qed.

(** C10: a Restore invocation of the engine never modifies the Interval
    Store: the array of recorded address/original-interval pairs and the
    entry count are the same before and after, also through [ds_oc_exit],
    the one caller that restores. *)
Theorem C10_restore_preserves_store env st :
  (restore_infos (Restore env st) = restore_infos st
   ∧ num_actually_patched_eps (Restore env st) = num_actually_patched_eps st)
  ∧ (restore_infos (ds_oc_exit env st) = restore_infos st
     ∧ num_actually_patched_eps (ds_oc_exit env st) = num_actually_patched_eps st).
Proof.
  split; [apply restore_store_frame|]. unfold ds_oc_exit.
  destruct (dualsense_device st); [|done]. apply restore_store_frame.
Qed.

(** ** The scoped apply *)

(** C4: whenever the engine changed an endpoint, it asks for the lock and
    attempts the reset whatever the answer; the unlock follows exactly when
    the lock was obtained, whether the reset succeeds or fails. *)
Theorem C4_unlock_iff_lock_held restore env st p :
  dualsense_device st = Some p →
  changed_anything restore st = true →
  let st' := patch_or_restore_dualsense_endpoints restore env st in
  (ret_lock env ≠ 0 →
   calls st' = calls st ++ [Lock_for_reset p; Reset_device p])
  ∧ (ret_lock env = 0 →
     calls st' = calls st ++ [Lock_for_reset p; Reset_device p; Unlock_device p]).
Proof.
  intros Hp Hch. cbv zeta.
  destruct (hid_endpoints st) as [eps|] eqn:Hh.
  - destruct (engine_hid restore env st eps Hh)
      as (_ & _ & _ & Hc & _ & _ & Hcalls & _).
    rewrite (Hcalls p Hp), <- Hc, Hch. unfold scoped_apply.
    split; intros Hl.
    + by apply Z.eqb_neq in Hl as ->.
    + by rewrite Hl.
  - destruct (engine_no_hid restore env st Hh) as (_ & _ & _ & Hc & _).
    congruence.
Qed.

Lemma C4_unlock_iff_lock_held_witness :
  let st := acquired 1 ds_ptr ds_bus in
  (calls (Patch core_lock_fails st) =
     [Lock_for_reset ds_ptr; Reset_device ds_ptr])
  ∧ (calls (Patch core_ok st) =
     [Lock_for_reset ds_ptr; Reset_device ds_ptr; Unlock_device ds_ptr]).
Proof.
  split.
  - apply (C4_unlock_iff_lock_held false core_lock_fails
             (acquired 1 ds_ptr ds_bus) ds_ptr); [reflexivity|reflexivity|].
    discriminate.
  - apply (C4_unlock_iff_lock_held false core_ok
             (acquired 1 ds_ptr ds_bus) ds_ptr); reflexivity.
Defined.

(** ** Nothing to change *)

(** C6: if a Patch finds the interval of every interrupt endpoint of the
    HID interface already equal to the configured target, it modifies no
    descriptor, [changed_anything] stays false, and neither lock, reset nor
    unlock is called. *)
Theorem C6_patch_at_target_changes_nothing env st :
  (∀ eps, hid_endpoints st = Some eps →
          Forall (λ e, is_interrupt e = true →
                       bInterval e = configured_interval st) eps) →
  devices (Patch env st) = devices st
  ∧ changed_anything false st = false
  ∧ calls (Patch env st) = calls st.
Proof.
  intros Hall. unfold Patch.
  destruct (hid_endpoints st) as [eps|] eqn:Hh.
  - destruct (engine_hid false env st eps Hh)
      as (_ & _ & _ & Hc & Hp & _ & Hcalls & Hdev).
    destruct (walk_endpoints_patch_at_target (configured_interval st) eps
                (initial_walk false st) (Hall eps eq_refl)) as [Heps Hch].
    cbn [initial_walk w_changed] in Hch.
    split_and!; [by apply Hdev|congruence|].
    destruct (dualsense_device st) as [p|] eqn:Hd.
    + rewrite (Hcalls p eq_refl), Hch. apply app_nil_r.
    + apply hid_endpoints_Some in Hh as (p & d & cfg & Hm & _).
      apply managed_config_Some in Hm as (Hp' & _). congruence.
  - by destruct (engine_no_hid false env st Hh) as (_ & -> & -> & -> & _).
Qed.

Lemma C6_patch_at_target_changes_nothing_witness :
  let st := acquired 6 ds_ptr ds_bus in
  devices (Patch core_ok st) = devices st
  ∧ changed_anything false st = false
  ∧ calls (Patch core_ok st) = calls st.
Proof.
  apply (C6_patch_at_target_changes_nothing core_ok (acquired 6 ds_ptr ds_bus)).
  intros eps Heps. vm_compute in Heps. simplify_eq.
  repeat constructor.
Defined.

(** ** The target interval *)

(** C7: the raw values 0, 9999 and 42 become the effective targets 1, 255
    and 42, both when [ds_oc_init] validates the parameter at load time and
    when [on_interval_changed] takes a value at run time, whatever devices
    are present or managed. *)
Theorem C7_target_interval_is_clamped env present st :
  (configured_interval (ds_oc_init env present (with_interval 0 st)) = 1
   ∧ configured_interval (ds_oc_init env present (with_interval 9999 st)) = 255
   ∧ configured_interval (ds_oc_init env present (with_interval 42 st)) = 42)
  ∧ (configured_interval (on_interval_changed env 0 0 st).2 = 1
     ∧ configured_interval (on_interval_changed env 0 9999 st).2 = 255
     ∧ configured_interval (on_interval_changed env 0 42 st).2 = 42).
Proof.
  unfold ds_oc_init.
  rewrite !usb_for_each_dev_interval, !on_interval_changed_interval.
  done.
Qed.

(** ** The tracker *)

Lemma engine_is_dualsense restore env st q d :
  devices st !! q = Some d →
  ∃ d', devices (patch_or_restore_dualsense_endpoints restore env st) !! q
        = Some d'
        ∧ is_dualsense d' = is_dualsense d ∧ refcount d' = refcount d.
Proof.
  intros Hd. destruct (engine_frame restore env st) as (_ & _ & Hid).
  specialize (Hid q). rewrite Hd in Hid.
  destruct (devices (patch_or_restore_dualsense_endpoints restore env st) !! q)
    as [d'|]; [|done].
  exists d'. cbn in Hid. unfold identity_of in Hid.
  injection Hid as Hv Hp Hr. unfold is_dualsense.
  by rewrite Hv, Hp.
Qed.

Lemma acquire_tracker_inv env p d st :
  devices st !! p = Some d → is_dualsense d = true →
  tracker_inv (patch_or_restore_dualsense_endpoints false env
                 (with_device (Some p) (usb_get_dev p (devices st))
                    (num_actually_patched_eps st) st)).
Proof.
  intros Hd Hds q.
  rewrite (proj1 (engine_frame _ _ _)). cbn. intros [= <-].
  destruct (engine_is_dualsense false env
              (with_device (Some p) (usb_get_dev p (devices st))
                 (num_actually_patched_eps st) st) p (ref_add 1 d))
    as (d' & Hd' & His & _).
  { cbn. unfold usb_get_dev. by rewrite lookup_alter_eq, Hd. }
  exists d'. by rewrite Hd', His.
Qed.

Lemma step_tracker_inv st ev : tracker_inv st → tracker_inv (step st ev).
Proof.
  intros Hinv. destruct ev as [env action udev|env udev]; cbn [step].
  - unfold on_usb_notify.
    destruct (devices st !! udev) as [d|] eqn:Hd; [|done].
    destruct (is_dualsense d) eqn:Hds; cbn [negb]; [|done].
    destruct (action =? USB_DEVICE_ADD).
    { destruct (dualsense_device st) eqn:Hm; [done|].
      by eapply acquire_tracker_inv. }
    destruct (action =? USB_DEVICE_REMOVE); [|done].
    destruct (decide _); [|done]. by intros q.
  - unfold check_existing_device_cb.
    destruct (devices st !! udev) as [d|] eqn:Hd; [|done].
    destruct (is_dualsense d) eqn:Hds; [|done].
    destruct (dualsense_device st) eqn:Hm; [done|].
    by eapply acquire_tracker_inv.
Qed.

Lemma run_tracker_inv evs st :
  dualsense_device st = None → tracker_inv (run evs st).
Proof.
  intros Hnone. assert (tracker_inv st) as Hinv by (intros p; congruence).
  clear Hnone. revert st Hinv. unfold run.
  induction evs as [|ev evs IH]; intros st Hinv; [done|].
  cbn [foldl]. by apply IH, step_tracker_inv.
Qed.

(** C8: a Remove event for the managed device gives up the module's
    reference: the reference count of that device is one less than before,
    and nothing else in that device or in any other device changes; the
    managed slot is emptied, the entry count of the store is set to zero,
    and neither lock nor reset is called: the engine does not run, no
    interval is written. *)
Theorem C8_remove_releases_without_restore env st p d :
  dualsense_device st = Some p →
  devices st !! p = Some d →
  is_dualsense d = true →
  let st' := on_usb_notify env USB_DEVICE_REMOVE p st in
  dualsense_device st' = None
  ∧ num_actually_patched_eps st' = 0
  ∧ refcount <$> devices st' !! p = Some (refcount d - 1)
  ∧ (∀ q, q ≠ p → devices st' !! q = devices st !! q)
  ∧ devices st' = <[p := ref_add (-1) d]> (devices st)
  ∧ (∀ q, actconfig <$> devices st' !! q = actconfig <$> devices st !! q)
  ∧ calls st' = calls st
  ∧ restore_infos st' = restore_infos st.
Proof.
  intros Hp Hd Hds. cbv zeta. unfold on_usb_notify.
  rewrite Hd, Hds. cbn [negb Z.eqb USB_DEVICE_REMOVE USB_DEVICE_ADD Pos.eqb].
  rewrite decide_True by done. cbn.
  assert (usb_put_dev p (devices st) = <[p:=ref_add (-1) d]> (devices st)) as Hput.
  { unfold usb_put_dev. apply map_eq. intros q.
    destruct (decide (p = q)) as [<-|Hne].
    - by rewrite lookup_alter_eq, lookup_insert_eq, Hd.
    - by rewrite lookup_alter_ne, lookup_insert_ne. }
  rewrite Hput. split_and!; try done.
  - rewrite lookup_insert_eq. cbn. f_equal; lia.
  - intros q Hne. by rewrite lookup_insert_ne.
  - intros q. destruct (decide (p = q)) as [<-|Hne].
    + by rewrite lookup_insert_eq, Hd.
    + by rewrite lookup_insert_ne.
Qed.

Lemma C8_remove_releases_without_restore_witness :
  let st := Patch core_ok (acquired 1 ds_ptr ds_bus) in
  let st' := on_usb_notify core_ok USB_DEVICE_REMOVE ds_ptr st in
  dualsense_device st' = None
  ∧ num_actually_patched_eps st' = 0
  ∧ (refcount <$> devices st !! ds_ptr = Some 2
     ∧ refcount <$> devices st' !! ds_ptr = Some 1)
  ∧ actconfig <$> devices st' !! ds_ptr = actconfig <$> devices st !! ds_ptr
  ∧ calls st' = calls st.
Proof.
  destruct (C8_remove_releases_without_restore core_ok
              (Patch core_ok (acquired 1 ds_ptr ds_bus)) ds_ptr
              (ref_add 1 (ds_device [set_bInterval 1 ds_ep_in;
                                     set_bInterval 1 ds_ep_out])))
    as (H1 & H2 & H3 & _ & _ & H4 & H5 & _); [reflexivity..|].
  cbv zeta. rewrite H1, H2, H3, H5.
  split_and!; [done|done|reflexivity|reflexivity|apply H4|done].
Defined.

Lemma acquire_holds env st0 st udev :
  dualsense_device st = None →
  holds_only_managed st0 st →
  holds_only_managed st0
    (patch_or_restore_dualsense_endpoints false env
       (with_device (Some udev) (usb_get_dev udev (devices st))
          (num_actually_patched_eps st) st)).
Proof.
  intros Hnone Hinv p d0 Hd0.
  destruct (Hinv p d0 Hd0) as (d & Hd & Hr).
  rewrite Hnone in Hr. rewrite decide_False in Hr by done.
  set (st1 := with_device _ _ _ _).
  assert (∃ d1, devices st1 !! p = Some d1
                ∧ refcount d1 =
                  refcount d0 + (if decide (Some udev = Some p) then 1 else 0))
    as (d1 & Hd1 & Hr1).
  { cbn. unfold usb_get_dev. destruct (decide (udev = p)) as [->|Hne].
    - rewrite lookup_alter_eq, Hd. eexists; split; [done|].
      rewrite decide_True by done. cbn. lia.
    - rewrite lookup_alter_ne by done. exists d. split; [done|].
      rewrite decide_False by congruence. done. }
  destruct (engine_is_dualsense false env st1 p d1 Hd1) as (d' & Hd' & _ & Hr').
  exists d'. split; [done|].
  rewrite (proj1 (engine_frame _ _ _)). cbn. lia.
Qed.

Lemma release_holds st0 st udev :
  dualsense_device st = Some udev →
  holds_only_managed st0 st →
  holds_only_managed st0 (with_device None (usb_put_dev udev (devices st)) 0 st).
Proof.
  intros Hsome Hinv p d0 Hd0.
  destruct (Hinv p d0 Hd0) as (d & Hd & Hr). rewrite Hsome in Hr.
  cbn. unfold usb_put_dev. rewrite decide_False by done.
  destruct (decide (udev = p)) as [->|Hne].
  - rewrite lookup_alter_eq, Hd. eexists; split; [done|].
    rewrite decide_True in Hr by done. cbn. lia.
  - rewrite lookup_alter_ne by done. exists d. split; [done|].
    rewrite decide_False in Hr by congruence. done.
Qed.

Lemma step_holds st0 st ev :
  holds_only_managed st0 st → holds_only_managed st0 (step st ev).
Proof.
  intros Hinv. destruct ev as [env action udev|env udev]; cbn [step].
  - unfold on_usb_notify.
    destruct (devices st !! udev) as [d|] eqn:Hd; [|done].
    destruct (negb (is_dualsense d)); [done|].
    destruct (action =? USB_DEVICE_ADD).
    { destruct (dualsense_device st) eqn:Hm; [done|]. by apply acquire_holds. }
    destruct (action =? USB_DEVICE_REMOVE); [|done].
    destruct (decide _); [|done]. by apply release_holds.
  - unfold check_existing_device_cb.
    destruct (devices st !! udev) as [d|] eqn:Hd; [|done].
    destruct (is_dualsense d); [|done].
    destruct (dualsense_device st) eqn:Hm; [done|]. by apply acquire_holds.
Qed.

Lemma run_holds evs st0 st :
  holds_only_managed st0 st → holds_only_managed st0 (run evs st).
Proof.
  revert st. unfold run.
  induction evs as [|ev evs IH]; intros st Hinv; [done|].
  cbn [foldl]. by apply IH, step_holds.
Qed.

(** C3: from a state that manages no device, after any sequence of hotplug
    notifications and enumeration visits the module holds a reference on the
    managed device and on no other, so at most one device is acquired; and
    while a device is managed, an Add event or an enumeration visit, for any
    device, leaves the whole state as it is. *)
Theorem C3_at_most_one_device evs st0 :
  dualsense_device st0 = None →
  let st := run evs st0 in
  holds_only_managed st0 st
  ∧ (∀ env udev, is_Some (dualsense_device st) →
       on_usb_notify env USB_DEVICE_ADD udev st = st
       ∧ (check_existing_device_cb env udev st).2 = st).
Proof.
  intros Hnone. cbv zeta. split.
  - apply run_holds. intros p d0 Hd0. exists d0. split; [done|].
    rewrite Hnone, decide_False by done. lia.
  - intros env udev [p Hp].
    unfold on_usb_notify, check_existing_device_cb. rewrite Hp.
    destruct (devices _ !! udev) as [d|]; [|done].
    destruct (is_dualsense d); done.
Qed.

Lemma C3_at_most_one_device_witness :
  let evs := [Visit core_ok ds_ptr;
              Notify core_ok USB_DEVICE_ADD ds_ptr';
              Notify core_ok USB_DEVICE_REMOVE ds_ptr;
              Notify core_lock_fails USB_DEVICE_ADD ds_ptr'] in
  let st := run evs (loaded 1 ds_two_bus) in
  holds_only_managed (loaded 1 ds_two_bus) st
  ∧ (∀ env udev, is_Some (dualsense_device st) →
       on_usb_notify env USB_DEVICE_ADD udev st = st
       ∧ (check_existing_device_cb env udev st).2 = st).
Proof.
  apply (C3_at_most_one_device
           [Visit core_ok ds_ptr;
            Notify core_ok USB_DEVICE_ADD ds_ptr';
            Notify core_ok USB_DEVICE_REMOVE ds_ptr;
            Notify core_lock_fails USB_DEVICE_ADD ds_ptr']
           (loaded 1 ds_two_bus)).
  reflexivity.
Defined.

(** ** What a patch leaves in the store *)

Lemma needs_patch_interrupt T e : needs_patch T e = true → is_interrupt e = true.
Proof. unfold needs_patch. by intros [? _]%andb_true_iff. Qed.

Lemma filter_needs_patch_addresses T eps e :
  e ∈ filter (λ x, needs_patch T x = true) eps →
  bEndpointAddress e ∈ interrupt_addresses eps.
Proof.
  intros [Hnp Hin]%list_elem_of_filter. unfold interrupt_addresses.
  apply list_elem_of_fmap_2, list_elem_of_filter.
  split; [by eapply needs_patch_interrupt|done].
Qed.

Lemma length_filter_needs_patch T eps :
  (length (filter (λ x, needs_patch T x = true) eps)
   ≤ length (interrupt_addresses eps))%nat.
Proof.
  unfold interrupt_addresses. rewrite length_fmap.
  induction eps as [|e eps IH]; [done|].
  rewrite filter_needs_patch_cons.
  destruct (needs_patch T e) eqn:Hnp.
  - rewrite (filter_cons_True (λ x, is_interrupt x = true))
      by (by eapply needs_patch_interrupt).
    cbn. lia.
  - destruct (is_interrupt e) eqn:Hint.
    + rewrite (filter_cons_True (λ x, is_interrupt x = true)) by done. cbn. lia.
    + rewrite (filter_cons_False (λ x, is_interrupt x = true))
        by (by rewrite Hint).
      done.
Qed.

(** No entry for an address that no interrupt endpoint has. *)
Lemma find_committed_None T eps n a :
  a ∉ interrupt_addresses eps →
  find_restore_info a
    (entry_of <$> take n (filter (λ x, needs_patch T x = true) eps)) = None.
Proof.
  intros Ha. apply find_restore_info_None, Forall_fmap, Forall_forall.
  intros e He Heq. apply Ha. cbn in Heq. rewrite <- Heq.
  eapply filter_needs_patch_addresses, (subseteq_take n), He.
Qed.

(** The entry of an endpoint that a patch rewrites while there is room. *)
Lemma find_committed_Some T pre e post n :
  needs_patch T e = true →
  (length (filter (λ x, needs_patch T x = true) pre) < n)%nat →
  bEndpointAddress e ∉ interrupt_addresses pre →
  find_restore_info (bEndpointAddress e)
    (entry_of <$> take n (filter (λ x, needs_patch T x = true)
                            (pre ++ e :: post)))
  = Some (bInterval e).
Proof.
  intros Hnp Hlen Ha.
  rewrite filter_app, filter_needs_patch_cons, Hnp.
  rewrite take_app_ge by lia.
  destruct (n - length (filter (λ x, needs_patch T x = true) pre))%nat
    as [|m] eqn:Hm; [lia|].
  cbn [take]. rewrite fmap_app, find_restore_info_app.
  rewrite <- (take_ge (filter (λ x, needs_patch T x = true) pre) n) by lia.
  rewrite (find_committed_None T pre n _ Ha). cbn.
  by rewrite Z.eqb_refl.
Qed.

(** The store after a patch, in terms of the endpoints it walked. *)
Lemma patch_store env st eps :
  store_sized st →
  hid_endpoints st = Some eps →
  store_of (Patch env st) =
  entry_of <$> take 2 (filter (λ x, needs_patch (configured_interval st) x = true)
                         eps)
  ∧ num_actually_patched_eps (Patch env st) =
    Z.of_nat (length (take 2 (filter
                (λ x, needs_patch (configured_interval st) x = true) eps))).
Proof.
  intros Hsz Hh. unfold store_of, Patch.
  destruct (engine_hid false env st eps Hh) as (_ & -> & -> & _).
  destruct (walk_endpoints_patch_committed (configured_interval st) eps
              (initial_walk false st)) as (Hc & Hn & _).
  { done. }
  { cbn. by rewrite Hsz. }
  split; [exact Hc|]. rewrite Hn. cbn. done.
Qed.

(** The count after walking a prefix, starting from an empty store. *)
Lemma patch_prefix_num T pre infos :
  (Z.to_nat MAX_PATCHED_EPS ≤ length infos)%nat →
  w_num (walk_endpoints false T pre
           {| w_infos := infos; w_num := 0; w_changed := false |}).2
  = Z.of_nat (length (take 2 (filter (λ x, needs_patch T x = true) pre))).
Proof.
  intros Hlen.
  destruct (walk_endpoints_patch_committed T pre
              {| w_infos := infos; w_num := 0; w_changed := false |})
    as (_ & Hn & _); [done|done|].
  by rewrite Hn.
Qed.

(** The endpoint a patch leaves at a position. *)
Lemma patch_endpoint_at env st pre e post :
  store_sized st →
  hid_endpoints st = Some (pre ++ e :: post) →
  endpoint_at (Patch env st) (length pre) =
  Some (if needs_patch (configured_interval st) e
           && (length (filter (λ x, needs_patch (configured_interval st) x = true)
                         pre) <? 2)%nat
        then set_bInterval (configured_interval st) e else e).
Proof.
  intros Hsz Hh. unfold endpoint_at, Patch.
  destruct (engine_hid false env st _ Hh) as (-> & _).
  rewrite walk_endpoints_lookup_middle. f_equal.
  rewrite visit_endpoint_patch. unfold initial_walk.
  rewrite patch_prefix_num by (by rewrite Hsz).
  rewrite length_take. unfold needs_patch.
  destruct (is_interrupt e); cbn [andb]; [|done].
  set (k := length _).
  destruct (Nat.ltb_spec k 2) as [Hlt|Hge].
  - destruct (Z.ltb_spec (Z.of_nat (2 `min` k)) MAX_PATCHED_EPS) as [_|Hc];
      [|unfold MAX_PATCHED_EPS in Hc; lia].
    rewrite andb_true_r. by destruct (negb _).
  - destruct (Z.ltb_spec (Z.of_nat (2 `min` k)) MAX_PATCHED_EPS) as [Hc|_];
      [unfold MAX_PATCHED_EPS in Hc; lia|].
    by rewrite andb_false_r.
Qed.

(** The endpoint a restore leaves at a position. *)
Lemma restore_endpoint_at env st pre e post :
  hid_endpoints st = Some (pre ++ e :: post) →
  endpoint_at (Restore env st) (length pre) = Some (restored (store_of st) e).
Proof.
  intros Hh. unfold endpoint_at, Restore.
  destruct (engine_hid true env st _ Hh) as (-> & _).
  rewrite walk_endpoints_restore. cbn [fst].
  rewrite list_lookup_fmap, list_lookup_middle by done. done.
Qed.

(** The engine keeps the layout of the endpoints it walks. *)
Lemma engine_shape restore env st pre e post :
  hid_endpoints st = Some (pre ++ e :: post) →
  ∃ pre' e' post',
    hid_endpoints (patch_or_restore_dualsense_endpoints restore env st)
    = Some (pre' ++ e' :: post')
    ∧ length pre' = length pre
    ∧ pre' = (walk_endpoints restore (configured_interval st) pre
                (initial_walk restore st)).1
    ∧ endpoint_at (patch_or_restore_dualsense_endpoints restore env st)
        (length pre) = Some e'.
Proof.
  intros Hh. unfold endpoint_at.
  destruct (engine_hid restore env st _ Hh) as (-> & _).
  rewrite walk_endpoints_app, walk_endpoints_cons. cbn [fst snd].
  eexists _, _, _. split_and!; [done| |done|].
  - apply walk_endpoints_length.
  - rewrite <- (walk_endpoints_length restore (configured_interval st) pre
                  (initial_walk restore st)).
    by rewrite list_lookup_middle.
Qed.

Lemma restored_not_found store e :
  find_restore_info (bEndpointAddress e) store = None → restored store e = e.
Proof.
  intros Hf. unfold restored, restore_target. rewrite Hf.
  by destruct (is_interrupt e).
Qed.

(** ** The capacity of the store *)

(** C5: an interrupt endpoint that the walk reaches after two endpoints
    have been patched (the store, of capacity 2, is full) keeps its interval
    through the Patch, gets no entry in the store, and is not modified by a
    Restore that follows.  Endpoint addresses are distinct, as the USB core
    guarantees for the endpoints of one alternate setting. *)
Theorem C5_capacity_boundary env1 env2 st pre e post :
  store_sized st →
  hid_endpoints st = Some (pre ++ e :: post) →
  is_interrupt e = true →
  (2 ≤ length (filter (λ x, needs_patch (configured_interval st) x = true) pre))%nat →
  bEndpointAddress e ∉ interrupt_addresses pre →
  let st1 := Patch env1 st in
  let st2 := Restore env2 st1 in
  endpoint_at st1 (length pre) = Some e
  ∧ lookupOriginal st1 (bEndpointAddress e) = None
  ∧ endpoint_at st2 (length pre) = Some e.
Proof.
  intros Hsz Hh Hint Hfull Ha. cbv zeta.
  assert (endpoint_at (Patch env1 st) (length pre) = Some e) as H1.
  { rewrite (patch_endpoint_at env1 st pre e post Hsz Hh).
    destruct (Nat.ltb_spec
                (length (filter (λ x, needs_patch (configured_interval st) x = true)
                           pre)) 2) as [Hlt|_]; [lia|].
    by rewrite andb_false_r. }
  assert (find_restore_info (bEndpointAddress e) (store_of (Patch env1 st)) = None)
    as H2.
  { rewrite (proj1 (patch_store env1 st _ Hsz Hh)).
    rewrite filter_app, take_app_le by done.
    by apply find_committed_None. }
  split_and!; [done|exact H2|].
  destruct (engine_shape false env1 st pre e post Hh)
    as (pre' & e' & post' & Hh' & Hlen & _ & He').
  fold (Patch env1 st) in Hh', He'.
  assert (e' = e) as -> by congruence.
  rewrite <- Hlen, (restore_endpoint_at env2 _ pre' e post' Hh').
  by rewrite restored_not_found.
Qed.

Lemma C5_capacity_boundary_witness :
  let st := acquired 1 ds_ptr tri_bus in
  let st1 := Patch core_ok st in
  let st2 := Restore core_ok st1 in
  endpoint_at st1 2 = Some (tri_ep 0x83)
  ∧ lookupOriginal st1 0x83 = None
  ∧ endpoint_at st2 2 = Some (tri_ep 0x83).
Proof.
  apply (C5_capacity_boundary core_ok core_ok (acquired 1 ds_ptr tri_bus)
           [tri_ep 0x81; tri_ep 0x02] (tri_ep 0x83) []).
  - reflexivity.
  - reflexivity.
  - reflexivity.
  - vm_compute. lia.
  - replace (interrupt_addresses [tri_ep 0x81; tri_ep 0x02]) with [0x81; 0x02]
      by reflexivity.
    cbn. rewrite !not_elem_of_cons. split_and!; [done|done|apply not_elem_of_nil].
Defined.

(** ** Endpoints already at the target *)

(** C9: an interrupt endpoint whose interval equals the configured target
    when a Patch visits it is not counted among the stored entries (the
    count is that of the other endpoints that needed patching, at most 2),
    has no entry afterwards, keeps its interval, and is passed over by a
    Restore that follows. *)
Theorem C9_at_target_not_committed env1 env2 st pre e post :
  store_sized st →
  hid_endpoints st = Some (pre ++ e :: post) →
  is_interrupt e = true →
  bInterval e = configured_interval st →
  bEndpointAddress e ∉ interrupt_addresses (pre ++ post) →
  let st1 := Patch env1 st in
  let st2 := Restore env2 st1 in
  num_actually_patched_eps st1 =
    Z.of_nat (2 `min` length (filter
                (λ x, needs_patch (configured_interval st) x = true)
                (pre ++ post)))
  ∧ lookupOriginal st1 (bEndpointAddress e) = None
  ∧ endpoint_at st1 (length pre) = Some e
  ∧ endpoint_at st2 (length pre) = Some e.
Proof.
  intros Hsz Hh Hint Heq Ha. cbv zeta.
  assert (needs_patch (configured_interval st) e = false) as Hnp.
  { unfold needs_patch. by rewrite Heq, Z.eqb_refl, andb_false_r. }
  assert (filter (λ x, needs_patch (configured_interval st) x = true)
            (pre ++ e :: post)
          = filter (λ x, needs_patch (configured_interval st) x = true)
              (pre ++ post)) as Hfilter.
  { by rewrite !filter_app, filter_needs_patch_cons, Hnp. }
  destruct (patch_store env1 st _ Hsz Hh) as (Hstore & Hnum).
  rewrite Hfilter in Hstore, Hnum.
  assert (endpoint_at (Patch env1 st) (length pre) = Some e) as H1.
  { by rewrite (patch_endpoint_at env1 st pre e post Hsz Hh), Hnp. }
  assert (find_restore_info (bEndpointAddress e) (store_of (Patch env1 st)) = None)
    as H2.
  { rewrite Hstore. by apply find_committed_None. }
  split_and!; [by rewrite Hnum, length_take|exact H2|done|].
  destruct (engine_shape false env1 st pre e post Hh)
    as (pre' & e' & post' & Hh' & Hlen & _ & He').
  fold (Patch env1 st) in Hh', He'.
  assert (e' = e) as -> by congruence.
  rewrite <- Hlen, (restore_endpoint_at env2 _ pre' e post' Hh').
  by rewrite restored_not_found.
Qed.

Lemma C9_at_target_not_committed_witness :
  let st := acquired 1 ds_ptr fast_bus in
  let st1 := Patch core_ok st in
  let st2 := Restore core_ok st1 in
  num_actually_patched_eps st1 = 1
  ∧ lookupOriginal st1 0x84 = None
  ∧ endpoint_at st1 0 = Some fast_ep_in
  ∧ endpoint_at st2 0 = Some fast_ep_in.
Proof.
  apply (C9_at_target_not_committed core_ok core_ok (acquired 1 ds_ptr fast_bus)
           [] fast_ep_in [ds_ep_out]).
  - reflexivity.
  - reflexivity.
  - reflexivity.
  - reflexivity.
  - replace (interrupt_addresses ([] ++ [ds_ep_out])) with [0x03] by reflexivity.
    cbn. rewrite !not_elem_of_cons. split; [done|apply not_elem_of_nil].
Defined.

(** ** Patch, restore, restore *)

Lemma module_state_eq st st' :
  restore_infos st' = restore_infos st →
  num_actually_patched_eps st' = num_actually_patched_eps st →
  dualsense_device st' = dualsense_device st →
  configured_interval st' = configured_interval st →
  devices st' = devices st →
  calls st' = calls st →
  st' = st.
Proof. destruct st, st'; cbn. by intros -> -> -> -> -> ->. Qed.

Lemma walk_endpoints_restore_again T store eps w :
  store_in_range store →
  committed w = store →
  walk_endpoints true T (restored store <$> eps) w =
  (restored store <$> eps, w).
Proof.
  intros Hrange Hc. rewrite walk_endpoints_restore, Hc. f_equal.
  - rewrite <- list_fmap_compose. apply list_fmap_ext.
    intros i e _. cbn. by apply restored_idem.
  - assert (existsb (restore_changes store) (restored store <$> eps) = false)
      as ->.
    { induction eps as [|e eps IH]; [done|]. cbn.
      by rewrite (proj1 (restored_idem store e Hrange)), IH. }
    rewrite orb_false_r. by destruct w.
Qed.

(** A second Restore in a row is a no-op on the whole state. *)
Lemma restore_restore env env' st :
  store_in_range (store_of st) →
  Restore env' (Restore env st) = Restore env st.
Proof.
  intros Hrange.
  destruct (restore_store_frame env st) as [Hi Hn].
  destruct (hid_endpoints st) as [eps|] eqn:Hh.
  - destruct (engine_hid true env st eps Hh) as (Hh1 & _ & _ & _ & Hp & _).
    fold (Restore env st) in Hh1, Hp.
    rewrite walk_endpoints_restore in Hh1. cbn [fst] in Hh1.
    change (committed (initial_walk true st)) with (store_of st) in Hh1.
    destruct (engine_hid true env' (Restore env st) _ Hh1)
      as (_ & Hi2 & Hn2 & _ & Hp2 & Hc2 & Hcalls2 & Hdev2).
    fold (Restore env' (Restore env st)) in *.
    rewrite (walk_endpoints_restore_again _ (store_of st)) in *; try done.
    2,3,4,5: by (unfold committed, store_of; cbn; rewrite Hi, Hn).
    apply module_state_eq; try done.
    + by apply Hdev2.
    + apply hid_endpoints_Some in Hh as (p & d & cfg & Hm & _).
      apply managed_config_Some in Hm as (Hp' & _).
      rewrite (Hcalls2 p) by congruence. cbn. apply app_nil_r.
  - destruct (engine_no_hid true env st Hh) as (Hh1 & _).
    fold (Restore env st) in Hh1.
    destruct (engine_no_hid true env' (Restore env st) Hh1)
      as (_ & ? & ? & _ & ? & Hn2 & ? & ?).
    apply module_state_eq; try done. by apply Hn2.
Qed.

Lemma interval_at_endpoint_at st i :
  interval_at st i = bInterval <$> endpoint_at st i.
Proof. done. Qed.

Lemma engine_store_sized restore env st :
  store_sized st →
  store_sized (patch_or_restore_dualsense_endpoints restore env st).
Proof.
  unfold store_sized. intros Hsz.
  destruct (hid_endpoints st) as [eps|] eqn:Hh.
  - destruct (engine_hid restore env st eps Hh) as (_ & -> & _).
    destruct restore.
    + by rewrite (proj1 (walk_endpoints_restore_store _ _ _)).
    + destruct (walk_endpoints_patch_committed (configured_interval st) eps
                  (initial_walk false st)) as (_ & _ & ->); try done.
      cbn. by rewrite Hsz.
  - by destruct (engine_no_hid restore env st Hh) as (_ & _ & _ & _ & -> & _).
Qed.

(** A patch on an endpoint that needs it, while the store has room. *)
Lemma patch_in_capacity env st pre e post :
  store_sized st →
  hid_endpoints st = Some (pre ++ e :: post) →
  needs_patch (configured_interval st) e = true →
  (length (filter (λ x, needs_patch (configured_interval st) x = true) pre) < 2)%nat →
  bEndpointAddress e ∉ interrupt_addresses pre →
  ∃ pre' post',
    hid_endpoints (Patch env st)
    = Some (pre' ++ set_bInterval (configured_interval st) e :: post')
    ∧ length pre' = length pre
    ∧ interrupt_addresses pre' = interrupt_addresses pre
    ∧ lookupOriginal (Patch env st) (bEndpointAddress e) = Some (bInterval e).
Proof.
  intros Hsz Hh Hnp Hroom Ha.
  destruct (engine_shape false env st pre e post Hh)
    as (pre' & e' & post' & Hh' & Hlen & Hpre & He').
  fold (Patch env st) in Hh', He'.
  rewrite (patch_endpoint_at env st pre e post Hsz Hh), Hnp in He'.
  destruct (Nat.ltb_spec
              (length (filter (λ x, needs_patch (configured_interval st) x = true)
                         pre)) 2) as [_|Hge]; [|lia].
  cbn [andb] in He'. injection He' as <-.
  exists pre', post'. split_and!; [done|done| |].
  - rewrite Hpre. apply same_endpoint_interrupt_addresses, walk_endpoints_same.
  - change (find_restore_info (bEndpointAddress e) (store_of (Patch env st))
            = Some (bInterval e)).
    rewrite (proj1 (patch_store env st _ Hsz Hh)).
    by apply find_committed_Some.
Qed.

(** A restore on an endpoint that has an entry. *)
Lemma restore_recorded env st pre e post v :
  hid_endpoints st = Some (pre ++ e :: post) →
  is_interrupt e = true →
  lookupOriginal st (bEndpointAddress e) = Some v →
  0 ≤ v < 256 →
  interval_at (Restore env st) (length pre) = Some v.
Proof.
  intros Hh Hint Hv Hrange.
  rewrite interval_at_endpoint_at, (restore_endpoint_at env st pre e post Hh).
  cbn. f_equal. unfold restored, restore_target. rewrite Hint.
  change (find_restore_info (bEndpointAddress e) (store_of st))
    with (lookupOriginal st (bEndpointAddress e)).
  rewrite Hv. destruct (Z.eqb_spec (bInterval e) v) as [Heq|Hne]; cbn; [done|].
  by apply Z.mod_small.
Qed.

Lemma patch_store_in_range env st eps :
  store_sized st →
  hid_endpoints st = Some eps →
  intervals_in_range eps →
  store_in_range (store_of (Patch env st)).
Proof.
  intros Hsz Hh Hrange. rewrite (proj1 (patch_store env st eps Hsz Hh)).
  unfold store_in_range. apply Forall_fmap, Forall_take, Forall_forall.
  intros e [_ He]%list_elem_of_filter.
  unfold intervals_in_range in Hrange. rewrite Forall_forall in Hrange.
  by apply Hrange.
Qed.

Lemma lookupOriginal_restore env st a :
  lookupOriginal (Restore env st) a = lookupOriginal st a.
Proof.
  unfold lookupOriginal. by destruct (restore_store_frame env st) as [-> ->].
Qed.

(** C1 (as the code has it): for an interrupt endpoint of the HID interface
    with interval V that the walk reaches while the store has room, whose
    address no earlier interrupt endpoint shares, and a target T ≠ V: Patch
    sets the interval to T and records V; the Restore that follows sets the
    interval back to V and leaves the store, the record of V included, as it
    is; a second Restore in a row is a no-op on the whole state, with no
    descriptor written and no lock or reset call. *)
Theorem C1_patch_restore_roundtrip env1 env2 env3 st pre e post V T :
  store_sized st →
  hid_endpoints st = Some (pre ++ e :: post) →
  intervals_in_range (pre ++ e :: post) →
  is_interrupt e = true →
  bInterval e = V →
  configured_interval st = T →
  1 ≤ T ≤ 255 →
  T ≠ V →
  (length (filter (λ x, needs_patch T x = true) pre) < 2)%nat →
  bEndpointAddress e ∉ interrupt_addresses pre →
  let st1 := Patch env1 st in
  let st2 := Restore env2 st1 in
  (interval_at st1 (length pre) = Some T
   ∧ lookupOriginal st1 (bEndpointAddress e) = Some V)
  ∧ (interval_at st2 (length pre) = Some V
     ∧ lookupOriginal st2 (bEndpointAddress e) = Some V
     ∧ restore_infos st2 = restore_infos st1
     ∧ num_actually_patched_eps st2 = num_actually_patched_eps st1)
  ∧ Restore env3 st2 = st2.
Proof.
  intros Hsz Hh Hrange Hint HV HT HTr Hne Hroom Ha. cbv zeta.
  assert (0 ≤ V < 256) as HVr.
  { unfold intervals_in_range in Hrange. rewrite Forall_forall in Hrange.
    rewrite <- HV. apply Hrange. apply elem_of_app. right. left. }
  assert (needs_patch T e = true) as Hnp.
  { unfold needs_patch. rewrite Hint, HV. cbn.
    apply negb_true_iff, Z.eqb_neq. congruence. }
  rewrite <- HT in Hnp, Hroom.
  destruct (patch_in_capacity env1 st pre e post Hsz Hh Hnp Hroom Ha)
    as (pre' & post' & Hh1 & Hlen & _ & Hrec).
  rewrite HT, HV in *.
  assert (is_interrupt (set_bInterval T e) = true) as Hint'.
  { by rewrite <- Hint. }
  destruct (restore_store_frame env2 (Patch env1 st)) as [Hi Hn].
  split_and!; try done.
  - unfold interval_at, endpoint_at. rewrite Hh1, <- Hlen, list_lookup_middle by done.
    cbn. f_equal. apply Z.mod_small. lia.
  - rewrite <- Hlen.
    by apply (restore_recorded env2 _ pre' (set_bInterval T e) post').
  - by rewrite lookupOriginal_restore.
  - apply restore_restore. by eapply patch_store_in_range.
Qed.

Lemma C1_patch_restore_roundtrip_witness :
  let st := acquired 1 ds_ptr ds_bus in
  let st1 := Patch core_ok st in
  let st2 := Restore core_lock_fails st1 in
  (interval_at st1 0 = Some 1 ∧ lookupOriginal st1 0x84 = Some 6)
  ∧ (interval_at st2 0 = Some 6
     ∧ lookupOriginal st2 0x84 = Some 6
     ∧ restore_infos st2 = restore_infos st1
     ∧ num_actually_patched_eps st2 = num_actually_patched_eps st1)
  ∧ Restore core_ok st2 = st2.
Proof.
  apply (C1_patch_restore_roundtrip core_ok core_lock_fails core_ok
           (acquired 1 ds_ptr ds_bus) [] ds_ep_in [ds_ep_out] 6 1).
  - reflexivity.
  - reflexivity.
  - repeat constructor; cbn; lia.
  - reflexivity.
  - reflexivity.
  - reflexivity.
  - lia.
  - lia.
  - cbn. lia.
  - apply not_elem_of_nil.
Defined.

(** C1, as stated, fails where it says that Restore clears the record: on
    the DualSense with both endpoints at interval 6 and target 1, after
    Patch and Restore the interval of endpoint 0x84 is back at 6 and the
    store still holds its entry, with both entries counted. *)
Lemma C1_restore_keeps_record :
  let st := acquired 1 ds_ptr ds_bus in
  let st1 := Patch core_ok st in
  let st2 := Restore core_ok st1 in
  (endpoint_at st 0 = Some ds_ep_in ∧ is_interrupt ds_ep_in = true
   ∧ bInterval ds_ep_in = 6 ∧ configured_interval st = 1)
  ∧ (interval_at st1 0 = Some 1 ∧ lookupOriginal st1 0x84 = Some 6)
  ∧ interval_at st2 0 = Some 6
  ∧ lookupOriginal st2 0x84 = Some 6
  ∧ num_actually_patched_eps st2 = 2.
Proof. cbv zeta. split_and!; reflexivity. Qed.

(** ** Reconfiguration *)

Lemma clamp_configured_interval_valid v st :
  1 ≤ v ≤ 255 →
  clamp_configured_interval (with_interval v st) = with_interval v st.
Proof.
  intros Hv. unfold clamp_configured_interval. cbn.
  destruct (Z.eqb_spec v 0); [lia|].
  destruct (Z.gtb_spec v 255); [lia|done].
Qed.

Lemma on_interval_changed_managed env v st :
  1 ≤ v ≤ 255 →
  is_Some (dualsense_device st) →
  (on_interval_changed env 0 v st).2 = Patch env (with_interval v st).
Proof.
  intros Hv [p Hp]. unfold on_interval_changed. cbn [Z.eqb].
  rewrite clamp_configured_interval_valid by done. cbn [with_interval dualsense_device].
  by rewrite Hp.
Qed.

(** C2 (as the code has it): for an interrupt endpoint with pristine
    interval V that is among the first two interrupt endpoints of the HID
    interface and whose address no earlier interrupt endpoint shares: after
    a Patch with target T1 and, with no Restore in between, the Patch that a
    change of the parameter to T2 triggers (T1, T2 in 1..255, V ≠ T1,
    T1 ≠ T2), the store holds T1, not V, as the original of that endpoint,
    and the Restore that follows sets its interval to T1. *)
Theorem C2_reconfiguration_rebaselines env1 env2 env3 st pre e post V T1 T2 :
  store_sized st →
  hid_endpoints st = Some (pre ++ e :: post) →
  is_interrupt e = true →
  bInterval e = V →
  configured_interval st = T1 →
  1 ≤ T1 ≤ 255 →
  1 ≤ T2 ≤ 255 →
  V ≠ T1 →
  T1 ≠ T2 →
  (length (interrupt_addresses pre) < 2)%nat →
  bEndpointAddress e ∉ interrupt_addresses pre →
  let st1 := Patch env1 st in
  let st2 := (on_interval_changed env2 0 T2 st1).2 in
  let st3 := Restore env3 st2 in
  interval_at st1 (length pre) = Some T1
  ∧ interval_at st2 (length pre) = Some T2
  ∧ lookupOriginal st2 (bEndpointAddress e) = Some T1
  ∧ lookupOriginal st2 (bEndpointAddress e) ≠ Some V
  ∧ interval_at st3 (length pre) = Some T1.
Proof.
  intros Hsz Hh Hint HV HT1 HT1r HT2r HVT HTT Hcount Ha. cbv zeta.
  (* first patch *)
  assert (needs_patch (configured_interval st) e = true) as Hnp.
  { unfold needs_patch. rewrite Hint, HV, HT1. cbn.
    by apply negb_true_iff, Z.eqb_neq. }
  pose proof (length_filter_needs_patch (configured_interval st) pre) as Hle.
  destruct (patch_in_capacity env1 st pre e post Hsz Hh Hnp ltac:(lia) Ha)
    as (pre1 & post1 & Hh1 & Hlen1 & Haddr1 & _).
  rewrite HT1 in Hh1. set (e1 := set_bInterval T1 e) in *.
  assert (bInterval e1 = T1) as Hb1 by (cbn; apply Z.mod_small; lia).
  (* the parameter changes *)
  assert (is_Some (dualsense_device (Patch env1 st))) as Hman.
  { apply hid_endpoints_Some in Hh1 as (p & d & cfg & Hm & _).
    apply managed_config_Some in Hm as (-> & _). by eexists. }
  rewrite (on_interval_changed_managed env2 T2 _ HT2r Hman).
  set (st1' := with_interval T2 (Patch env1 st)).
  assert (store_sized st1') as Hsz1 by (by apply (engine_store_sized false)).
  assert (hid_endpoints st1' = Some (pre1 ++ e1 :: post1)) as Hh1' by done.
  assert (needs_patch (configured_interval st1') e1 = true) as Hnp1.
  { unfold needs_patch. rewrite Hb1. cbn -[is_interrupt].
    change (is_interrupt e1) with (is_interrupt e). rewrite Hint. cbn.
    by apply negb_true_iff, Z.eqb_neq. }
  pose proof (length_filter_needs_patch (configured_interval st1') pre1) as Hle1.
  rewrite Haddr1 in Hle1.
  destruct (patch_in_capacity env2 st1' pre1 e1 post1 Hsz1 Hh1' Hnp1
              ltac:(lia) ltac:(by rewrite Haddr1))
    as (pre2 & post2 & Hh2 & Hlen2 & _ & Hrec2).
  change (configured_interval st1') with T2 in Hh2.
  change (bEndpointAddress e1) with (bEndpointAddress e) in Hrec2.
  rewrite Hb1 in Hrec2.
  split_and!.
  - unfold interval_at, endpoint_at. rewrite Hh1, <- Hlen1, list_lookup_middle by done.
    by rewrite <- Hb1.
  - unfold interval_at, endpoint_at. rewrite Hh2, <- Hlen1, <- Hlen2, list_lookup_middle by done.
    cbn. f_equal. apply Z.mod_small. lia.
  - done.
  - rewrite Hrec2. congruence.
  - rewrite <- Hlen1, <- Hlen2.
    apply (restore_recorded env3 _ pre2 (set_bInterval T2 e1) post2);
      [done| |done|lia].
    change (is_interrupt (set_bInterval T2 e1)) with (is_interrupt e). done.
Qed.

Lemma C2_reconfiguration_rebaselines_witness :
  let st := acquired 1 ds_ptr ds_bus in
  let st1 := Patch core_ok st in
  let st2 := (on_interval_changed core_ok 0 4 st1).2 in
  let st3 := Restore core_ok st2 in
  interval_at st1 1 = Some 1
  ∧ interval_at st2 1 = Some 4
  ∧ lookupOriginal st2 0x03 = Some 1
  ∧ lookupOriginal st2 0x03 ≠ Some 6
  ∧ interval_at st3 1 = Some 1.
Proof.
  apply (C2_reconfiguration_rebaselines core_ok core_ok core_ok
           (acquired 1 ds_ptr ds_bus) [ds_ep_in] ds_ep_out [] 6 1 4).
  - reflexivity.
  - reflexivity.
  - reflexivity.
  - reflexivity.
  - reflexivity.
  - lia.
  - lia.
  - lia.
  - lia.
  - vm_compute. lia.
  - replace (interrupt_addresses [ds_ep_in]) with [0x84] by reflexivity.
    cbn. rewrite !not_elem_of_cons. split; [done|apply not_elem_of_nil].
Defined.

(** C2, as stated for every endpoint, fails behind the capacity of the
    store.  On a HID interface with the interrupt endpoints 0x81 and 0x02
    at interval 1 and 0x83 at interval 6: the Patch with target 1 brings
    0x83 from 6 to 1; the Patch with target 4 then records 0x81 and 0x02,
    finds the store full at 0x83 and passes it over, so 0x83 stays at 1 and
    the store holds no original for it at all. *)
Lemma C2_third_endpoint_not_rebaselined :
  let st := acquired 1 ds_ptr late_bus in
  let st1 := Patch core_ok st in
  let st2 := (on_interval_changed core_ok 0 4 st1).2 in
  (endpoint_at st 2 = Some (late_ep 0x83 6)
   ∧ is_interrupt (late_ep 0x83 6) = true
   ∧ configured_interval st = 1)
  ∧ interval_at st1 2 = Some 1
  ∧ configured_interval st2 = 4
  ∧ store_of st2 = [entry_of (late_ep 0x81 1); entry_of (late_ep 0x02 1)]
  ∧ lookupOriginal st2 0x83 = None
  ∧ interval_at st2 2 = Some 1.
Proof. cbv zeta. split_and!; reflexivity. Qed.

(** * Further properties *)

(** ** The memory the engine writes *)

Lemma drop_app_drop_same {A} (n : nat) (l l' : list A) :
  length l' = length (take n l) → drop n (l' ++ drop n l) = drop n l.
Proof.
  rewrite length_take. intros Hlen.
  destruct (decide (n ≤ length l)%nat) as [Hle|Hgt].
  - rewrite drop_app_length'; [done|lia].
  - rewrite (drop_ge l) by lia. rewrite app_nil_r. apply drop_ge. lia.
Qed.

Lemma put_hid_length ifs eps' : length (put_hid ifs eps') = length ifs.
Proof.
  induction ifs as [|[intf|] ifs IH]; cbn; [done| |by rewrite IH].
  destruct (cur_altsetting intf) as [alt|]; [|cbn; by rewrite IH].
  destruct (bInterfaceClass alt =? USB_CLASS_HID); cbn; [done|by rewrite IH].
Qed.

Lemma walk_altsetting_put restore T alt w :
  walk_altsetting restore T alt w =
  (put_endpoints alt
     (walk_endpoints restore T
        (take (Z.to_nat (bNumEndpoints alt)) (endpoint alt)) w).1,
   (walk_endpoints restore T
      (take (Z.to_nat (bNumEndpoints alt)) (endpoint alt)) w).2).
Proof.
  unfold walk_altsetting, put_endpoints.
  by destruct (walk_endpoints _ _ _ _).
Qed.

Lemma walk_interfaces_put restore T ifs w alt :
  find_hid ifs = Some alt →
  walk_interfaces restore T ifs w =
  (put_hid ifs
     (walk_endpoints restore T
        (take (Z.to_nat (bNumEndpoints alt)) (endpoint alt)) w).1,
   (walk_endpoints restore T
      (take (Z.to_nat (bNumEndpoints alt)) (endpoint alt)) w).2).
Proof.
  induction ifs as [|[intf|] ifs IH]; cbn [find_hid walk_interfaces put_hid];
    [done| |].
  - destruct (cur_altsetting intf) as [alt0|].
    + destruct (bInterfaceClass alt0 =? USB_CLASS_HID).
      * intros [= ->]. by rewrite walk_altsetting_put.
      * intros Hf. by rewrite (IH Hf).
    + intros Hf. by rewrite (IH Hf).
  - intros Hf. by rewrite (IH Hf).
Qed.

Lemma find_hid_put ifs alt eps' :
  find_hid ifs = Some alt →
  find_hid (put_hid ifs eps') = Some (put_endpoints alt eps').
Proof.
  induction ifs as [|[intf|] ifs IH]; cbn [find_hid put_hid]; [done| |done].
  destruct (cur_altsetting intf) as [alt0|] eqn:Hcur.
  - destruct (bInterfaceClass alt0 =? USB_CLASS_HID) eqn:Hcls.
    + intros [= ->]. cbn. by rewrite Hcls.
    + cbn. by rewrite Hcur, Hcls.
  - cbn. by rewrite Hcur.
Qed.

Lemma put_hid_put ifs alt a b :
  find_hid ifs = Some alt →
  length a = length (take (Z.to_nat (bNumEndpoints alt)) (endpoint alt)) →
  put_hid (put_hid ifs a) b = put_hid ifs b.
Proof.
  intros Hf Hlen.
  induction ifs as [|[intf|] ifs IH]; cbn [find_hid put_hid] in *; [done| |].
  - destruct (cur_altsetting intf) as [alt0|] eqn:Hcur.
    + destruct (bInterfaceClass alt0 =? USB_CLASS_HID) eqn:Hcls.
      * injection Hf as ->. cbn. rewrite Hcls. do 3 f_equal.
        unfold put_endpoints. cbn. by rewrite drop_app_drop_same.
      * cbn. rewrite Hcur, Hcls. f_equal. by apply IH.
    + cbn. rewrite Hcur. f_equal. by apply IH.
  - f_equal. by apply IH.
Qed.

Lemma put_hid_same ifs alt :
  find_hid ifs = Some alt →
  put_hid ifs (take (Z.to_nat (bNumEndpoints alt)) (endpoint alt)) = ifs.
Proof.
  induction ifs as [|[intf|] ifs IH]; cbn [find_hid put_hid]; [done| |].
  - destruct (cur_altsetting intf) as [alt0|] eqn:Hcur.
    + destruct (bInterfaceClass alt0 =? USB_CLASS_HID).
      * intros [= ->]. unfold put_endpoints. rewrite take_drop.
        destruct intf as [c]. cbn in Hcur. subst c. by destruct alt.
      * intros Hf. by rewrite (IH Hf).
    + intros Hf. by rewrite (IH Hf).
  - intros Hf. by rewrite (IH Hf).
Qed.

(** The configuration after a walk: the walked endpoints are put back in
    place of those of the first HID interface. *)
Lemma walk_config_put restore T cfg w eps :
  config_hid_endpoints cfg = Some eps →
  walk_config restore T cfg w =
  (config_put_hid cfg (walk_endpoints restore T eps w).1,
   (walk_endpoints restore T eps w).2).
Proof.
  unfold config_hid_endpoints, walk_config, config_put_hid.
  destruct (find_hid _) as [alt|] eqn:Hf; [|done]. intros [= <-].
  by rewrite (walk_interfaces_put _ _ _ _ _ Hf).
Qed.

Lemma config_put_hid_endpoints cfg eps eps' :
  config_hid_endpoints cfg = Some eps →
  length eps' = length eps →
  config_hid_endpoints (config_put_hid cfg eps') = Some eps'.
Proof.
  unfold config_hid_endpoints, config_put_hid. cbn.
  destruct (find_hid _) as [alt|] eqn:Hf; [|done]. intros [= <-] Hlen.
  rewrite take_app_drop_same by (by rewrite put_hid_length).
  rewrite (find_hid_put _ _ _ Hf). f_equal. cbn.
  by apply take_app_drop_same.
Qed.

Lemma config_put_hid_put cfg eps a b :
  config_hid_endpoints cfg = Some eps →
  length a = length eps →
  config_put_hid (config_put_hid cfg a) b = config_put_hid cfg b.
Proof.
  unfold config_hid_endpoints, config_put_hid. cbn.
  destruct (find_hid _) as [alt|] eqn:Hf; [|done]. intros [= <-] Hlen.
  rewrite take_app_drop_same by (by rewrite put_hid_length).
  rewrite drop_app_drop_same by (by rewrite put_hid_length).
  by rewrite (put_hid_put _ _ _ _ Hf Hlen).
Qed.

Lemma config_put_hid_same cfg eps :
  config_hid_endpoints cfg = Some eps → config_put_hid cfg eps = cfg.
Proof.
  unfold config_hid_endpoints, config_put_hid.
  destruct (find_hid _) as [alt|] eqn:Hf; [|done]. intros [= <-].
  rewrite (put_hid_same _ _ Hf), take_drop. by destruct cfg.
Qed.

(** The device memory after the engine ran on a device with a HID
    interface. *)
Lemma engine_devices restore env st p d eps :
  dualsense_device st = Some p →
  devices st !! p = Some d →
  device_hid_endpoints d = Some eps →
  devices (patch_or_restore_dualsense_endpoints restore env st) =
  <[p := device_put_hid d
           (walk_endpoints restore (configured_interval st) eps
              (initial_walk restore st)).1]> (devices st).
Proof.
  intros Hp Hd Hh. unfold device_hid_endpoints in Hh.
  destruct (actconfig d) as [cfg|] eqn:Ha; [|done].
  unfold patch_or_restore_dualsense_endpoints, managed_config.
  rewrite Hp, Hd, Ha, (walk_config_put _ _ _ _ _ Hh). cbn.
  unfold device_put_hid. by rewrite Ha.
Qed.

Lemma hid_endpoints_device st eps :
  hid_endpoints st = Some eps →
  ∃ p d, dualsense_device st = Some p ∧ devices st !! p = Some d
         ∧ device_hid_endpoints d = Some eps.
Proof.
  intros (p & d & cfg & Hm & Hc)%hid_endpoints_Some.
  apply managed_config_Some in Hm as (Hp & Hd & Ha).
  exists p, d. unfold device_hid_endpoints. by rewrite Ha.
Qed.

Lemma find_hid_app_None pre l : find_hid pre = None → find_hid (pre ++ l) = find_hid l.
Proof.
  induction pre as [|[intf|] pre IH]; cbn [find_hid app]; [done| |done].
  destruct (cur_altsetting intf) as [alt|]; [|done].
  by destruct (bInterfaceClass alt =? USB_CLASS_HID).
Qed.

Lemma put_hid_app_None pre l eps' :
  find_hid pre = None → put_hid (pre ++ l) eps' = pre ++ put_hid l eps'.
Proof.
  induction pre as [|[intf|] pre IH]; cbn [find_hid app put_hid]; [done| |].
  - destruct (cur_altsetting intf) as [alt|].
    + destruct (bInterfaceClass alt =? USB_CLASS_HID); [done|].
      intros Hf. by rewrite (IH Hf).
    + intros Hf. by rewrite (IH Hf).
  - intros Hf. by rewrite (IH Hf).
Qed.

(** X1: where the managed device shows no HID interface (or nothing is
    managed, or the device has no active configuration), a Restore returns
    the state as it is, and a Patch changes at most the entry count, which
    it sets to zero if it got past the check of the device and its
    configuration: no descriptor is written and no call is made. *)
Theorem X1_engine_without_hid_interface env st :
  hid_endpoints st = None →
  Restore env st = st
  ∧ Patch env st =
    match managed_config st with
    | Some _ => with_device (dualsense_device st) (devices st) 0 st
    | None => st
    end.
Proof.
  intros Hh. split.
  - destruct (engine_no_hid true env st Hh) as (_ & ? & ? & _ & ? & Hn & ? & ?).
    apply module_state_eq; try done. by apply Hn.
  - destruct (engine_no_hid false env st Hh) as (_ & Hd & Hc & _ & Hi & _ & Hp & Hr).
    fold (Patch env st) in *.
    destruct (managed_config st) as [[[p d] cfg]|] eqn:Hm.
    + apply module_state_eq; try done.
      unfold Patch, patch_or_restore_dualsense_endpoints. rewrite Hm.
      pose proof (walk_config_spec false (configured_interval st) cfg
                    (initial_walk false st)) as Hspec.
      unfold hid_endpoints in Hh. rewrite Hm in Hh. rewrite Hh in Hspec.
      by rewrite Hspec.
    + unfold Patch, patch_or_restore_dualsense_endpoints. by rewrite Hm.
Qed.

Lemma X1_engine_without_hid_interface_witness :
  let st := with_device (Some ds_ptr) audio_only_bus 2 (loaded 1 audio_only_bus) in
  Restore core_ok st = st
  ∧ Patch core_ok st = with_device (Some ds_ptr) audio_only_bus 0 st.
Proof.
  apply (X1_engine_without_hid_interface core_ok
           (with_device (Some ds_ptr) audio_only_bus 2 (loaded 1 audio_only_bus))).
  reflexivity.
Defined.

Lemma visit_endpoint_result restore T e w :
  (visit_endpoint restore T e w).1 = e
  ∨ (is_interrupt e = true
     ∧ ∃ t, (visit_endpoint restore T e w).1 = set_bInterval t e).
Proof.
  unfold visit_endpoint, is_interrupt.
  destruct (_ || _); [|by left].
  destruct (choose_target restore T e w) as [[t w1]|]; [|by left].
  destruct (negb _); [|by left]. right. split; [done|by exists t].
Qed.

Lemma walk_endpoints_rewritten restore T eps w :
  Forall2 interval_rewritten (walk_endpoints restore T eps w).1 eps.
Proof.
  revert w. induction eps as [|e eps IH]; intros w; [constructor|].
  rewrite walk_endpoints_cons. cbn [fst]. constructor; [|apply IH].
  destruct (visit_endpoint_address restore T e w) as [Ha Hb].
  split_and!; [done|done|].
  destruct (visit_endpoint_result restore T e w) as [->|[Hint [t ->]]];
    [by left|right].
  split; [done|]. cbn. apply Z.mod_pos_bound. done.
Qed.

(** X2: on the endpoints it walks, the engine (in either mode) keeps the
    number and order of the endpoints and the address and attributes of
    each; an endpoint that is not an interrupt endpoint is left exactly as
    it is, and an interval it writes is a byte value. *)
Theorem X2_engine_rewrites_only_interrupt_intervals restore env st eps :
  hid_endpoints st = Some eps →
  ∃ eps',
    hid_endpoints (patch_or_restore_dualsense_endpoints restore env st)
    = Some eps'
    ∧ length eps' = length eps
    ∧ Forall2 interval_rewritten eps' eps
    ∧ (∀ i e, eps !! i = Some e → is_interrupt e = false → eps' !! i = Some e).
Proof.
  intros Hh. destruct (engine_hid restore env st eps Hh) as (Hh' & _).
  eexists. split; [exact Hh'|].
  pose proof (walk_endpoints_rewritten restore (configured_interval st) eps
                (initial_walk restore st)) as Hall.
  split_and!; [apply walk_endpoints_length|done|].
  intros i e He Hint.
  destruct (Forall2_lookup_r _ _ _ _ _ Hall He) as (e' & He' & _ & _ & Hcase).
  rewrite He'. f_equal. destruct Hcase as [->|[Hint' _]]; [done|congruence].
Qed.

Lemma X2_engine_rewrites_only_interrupt_intervals_witness :
  ∃ eps',
    hid_endpoints (Patch core_ok (acquired 1 ds_ptr bulk_bus)) = Some eps'
    ∧ length eps' = 3%nat
    ∧ Forall2 interval_rewritten eps' [bulk_ep; ds_ep_in; ds_ep_out]
    ∧ (∀ i e, [bulk_ep; ds_ep_in; ds_ep_out] !! i = Some e →
              is_interrupt e = false → eps' !! i = Some e).
Proof.
  apply (X2_engine_rewrites_only_interrupt_intervals false core_ok
           (acquired 1 ds_ptr bulk_bus) [bulk_ep; ds_ep_in; ds_ep_out]).
  reflexivity.
Defined.

(** X3: the engine writes to one place only.  If the interfaces below
    [bNumInterfaces] of the managed device are [pre], then a HID interface,
    then [rest], with no HID interface in [pre], then afterwards the device
    memory differs from before only in the endpoints of that HID interface
    below its [bNumEndpoints]: [pre], [rest] (further HID interfaces
    included), the entries beyond the counts, the device's identity and
    reference count, and every other device are as before. *)
Theorem X3_only_first_hid_interface_is_written restore env st p d cfg
    pre intf alt rest :
  dualsense_device st = Some p →
  devices st !! p = Some d →
  actconfig d = Some cfg →
  take (Z.to_nat (bNumInterfaces cfg)) (interface cfg) = pre ++ Some intf :: rest →
  find_hid pre = None →
  cur_altsetting intf = Some alt →
  bInterfaceClass alt = USB_CLASS_HID →
  ∃ eps',
    Forall2 interval_rewritten eps'
      (take (Z.to_nat (bNumEndpoints alt)) (endpoint alt))
    ∧ devices (patch_or_restore_dualsense_endpoints restore env st) =
      <[p := {| idVendor := idVendor d; idProduct := idProduct d;
                actconfig :=
                  Some {| bNumInterfaces := bNumInterfaces cfg;
                          interface :=
                            (pre ++ Some {| cur_altsetting :=
                                              Some (put_endpoints alt eps') |}
                                 :: rest)
                              ++ drop (Z.to_nat (bNumInterfaces cfg))
                                   (interface cfg) |};
                refcount := refcount d |}]> (devices st).
Proof.
  intros Hp Hd Ha Hifs Hpre Hcur Hcls.
  assert (find_hid (pre ++ Some intf :: rest) = Some alt) as Hf.
  { rewrite find_hid_app_None by done. cbn. rewrite Hcur, Hcls. done. }
  assert (device_hid_endpoints d
          = Some (take (Z.to_nat (bNumEndpoints alt)) (endpoint alt))) as Hh.
  { unfold device_hid_endpoints, config_hid_endpoints. by rewrite Ha, Hifs, Hf. }
  eexists. split; [apply walk_endpoints_rewritten|].
  rewrite (engine_devices restore env st p d _ Hp Hd Hh).
  do 2 f_equal. unfold device_put_hid, config_put_hid. rewrite Ha. cbn.
  rewrite Hifs, put_hid_app_None by done. cbn. by rewrite Hcur, Hcls.
Qed.

Lemma X3_only_first_hid_interface_is_written_witness :
  ∃ eps',
    Forall2 interval_rewritten eps' [ds_ep_in; ds_ep_out]
    ∧ devices (Patch core_ok (acquired 1 ds_ptr two_hid_bus)) =
      <[ds_ptr :=
          {| idVendor := DS_VID; idProduct := DS_PID;
             actconfig :=
               Some {| bNumInterfaces := 3;
                       interface :=
                         [Some ds_audio;
                          Some (hid_interface 3 eps');
                          Some (hid_interface 4 [tri_ep 0x85])] |};
             refcount := 2 |}]> (devices (acquired 1 ds_ptr two_hid_bus)).
Proof.
  destruct (X3_only_first_hid_interface_is_written false core_ok
              (acquired 1 ds_ptr two_hid_bus) ds_ptr (ref_add 1 two_hid_device)
              two_hid_config [Some ds_audio]
              (hid_interface 3 [ds_ep_in; ds_ep_out])
              {| bInterfaceNumber := 3; bInterfaceClass := USB_CLASS_HID;
                 bNumEndpoints := 2; endpoint := [ds_ep_in; ds_ep_out] |}
              [Some (hid_interface 4 [tri_ep 0x85])])
    as (eps' & Hall & Hdev); [reflexivity..|].
  exists eps'. split; [exact Hall|]. unfold Patch. rewrite Hdev.
  pose proof (Forall2_length _ _ _ Hall) as Hlen.
  unfold hid_interface, put_endpoints. cbn. rewrite app_nil_r.
  cbn in Hlen. by rewrite Hlen.
Defined.

(** ** Patch in closed form *)

Lemma length_interrupt_addresses_cons e eps :
  length (interrupt_addresses (e :: eps)) =
  ((if is_interrupt e then 1 else 0) + length (interrupt_addresses eps))%nat.
Proof.
  unfold interrupt_addresses. rewrite !length_fmap.
  destruct (is_interrupt e) eqn:Hint.
  - by rewrite filter_cons_True.
  - rewrite filter_cons_False; [done|by rewrite Hint].
Qed.

(** With room for every interrupt endpoint, the patch walk rewrites each
    endpoint that needs it. *)
Lemma walk_endpoints_patch_map T eps w :
  0 ≤ w_num w →
  w_num w + Z.of_nat (length (interrupt_addresses eps)) ≤ MAX_PATCHED_EPS →
  (walk_endpoints false T eps w).1 = patched T <$> eps.
Proof.
  revert w. induction eps as [|e eps IH]; intros w Hnum Hroom; [done|].
  rewrite length_interrupt_addresses_cons in Hroom.
  rewrite walk_endpoints_cons, visit_endpoint_patch. cbn [fmap list_fmap].
  unfold patched at 1, needs_patch.
  destruct (is_interrupt e) eqn:Hint; cbn [andb].
  - destruct (Z.ltb_spec (w_num w) MAX_PATCHED_EPS) as [Hlt|Hge]; [|lia].
    destruct (negb (bInterval e =? T)); cbn [fst snd]; f_equal;
      apply IH; cbn; lia.
  - cbn [fst snd]. f_equal. apply IH; [done|lia].
Qed.

Lemma patched_at_target T e :
  0 ≤ T < 256 → is_interrupt e = true → bInterval (patched T e) = T.
Proof.
  intros HT Hint. unfold patched, needs_patch. rewrite Hint. cbn.
  destruct (Z.eqb_spec (bInterval e) T) as [Heq|Hne]; cbn; [done|].
  by apply Z.mod_small.
Qed.

Lemma patched_same T e : same_endpoint (patched T e) e.
Proof. unfold patched. by destruct (needs_patch T e). Qed.

(** X4: after a Patch the Interval Store holds, in the order of the walk,
    exactly the first two endpoints that needed patching, each with its
    address and the interval it had before; the entry count is the number
    of these and lies between 0 and [MAX_PATCHED_EPS], and the array keeps
    its size. *)
Theorem X4_store_after_patch env st eps :
  store_sized st →
  hid_endpoints st = Some eps →
  let np := filter (λ e, needs_patch (configured_interval st) e = true) eps in
  store_of (Patch env st) = entry_of <$> take 2 np
  ∧ num_actually_patched_eps (Patch env st) = Z.of_nat (2 `min` length np)
  ∧ 0 ≤ num_actually_patched_eps (Patch env st) ≤ MAX_PATCHED_EPS
  ∧ store_sized (Patch env st).
Proof.
  intros Hsz Hh. cbv zeta.
  destruct (patch_store env st eps Hsz Hh) as [Hs Hn].
  rewrite length_take in Hn.
  split_and!; [done|done|rewrite Hn; unfold MAX_PATCHED_EPS; lia..|].
  by apply engine_store_sized.
Qed.

Lemma X4_store_after_patch_witness :
  let st := acquired 1 ds_ptr tri_bus in
  store_of (Patch core_ok st) = [entry_of (tri_ep 0x81); entry_of (tri_ep 0x02)]
  ∧ num_actually_patched_eps (Patch core_ok st) = 2
  ∧ 0 ≤ num_actually_patched_eps (Patch core_ok st) ≤ MAX_PATCHED_EPS
  ∧ store_sized (Patch core_ok st).
Proof.
  apply (X4_store_after_patch core_ok (acquired 1 ds_ptr tri_bus)
           [tri_ep 0x81; tri_ep 0x02; tri_ep 0x83]); reflexivity.
Defined.

(** X5: on a HID interface with at most two interrupt endpoints and a
    target that is a byte value, a Patch leaves every interrupt endpoint at
    the target interval and every other endpoint as it was. *)
Theorem X5_patch_brings_all_to_target env st eps :
  hid_endpoints st = Some eps →
  (length (interrupt_addresses eps) ≤ 2)%nat →
  0 ≤ configured_interval st < 256 →
  hid_endpoints (Patch env st) = Some (patched (configured_interval st) <$> eps)
  ∧ Forall (λ e, is_interrupt e = true → bInterval e = configured_interval st)
      (patched (configured_interval st) <$> eps).
Proof.
  intros Hh Hcount HT. unfold Patch.
  destruct (engine_hid false env st eps Hh) as (-> & _).
  rewrite walk_endpoints_patch_map by (cbn; unfold MAX_PATCHED_EPS; lia).
  split; [done|]. apply Forall_fmap, Forall_forall. intros e _ Hint. cbn in *.
  apply patched_at_target; [done|].
  by rewrite <- (same_endpoint_is_interrupt _ _
                   (patched_same (configured_interval st) e)).
Qed.

Lemma X5_patch_brings_all_to_target_witness :
  let st := acquired 1 ds_ptr bulk_bus in
  hid_endpoints (Patch core_ok st)
  = Some (patched 1 <$> [bulk_ep; ds_ep_in; ds_ep_out])
  ∧ Forall (λ e, is_interrupt e = true → bInterval e = 1)
      (patched 1 <$> [bulk_ep; ds_ep_in; ds_ep_out]).
Proof.
  apply (X5_patch_brings_all_to_target core_ok (acquired 1 ds_ptr bulk_bus)
           [bulk_ep; ds_ep_in; ds_ep_out]).
  - reflexivity.
  - vm_compute. lia.
  - cbn. lia.
Defined.

(** ** Patch and Restore as a round trip *)

Lemma interrupt_addresses_app l1 l2 :
  interrupt_addresses (l1 ++ l2) = interrupt_addresses l1 ++ interrupt_addresses l2.
Proof. unfold interrupt_addresses. by rewrite filter_app, fmap_app. Qed.

Lemma interrupt_addresses_cons_interrupt e l :
  is_interrupt e = true →
  interrupt_addresses (e :: l) = bEndpointAddress e :: interrupt_addresses l.
Proof. intros Hint. unfold interrupt_addresses. by rewrite filter_cons_True. Qed.

Lemma set_bInterval_back T e :
  0 ≤ bInterval e < 256 → set_bInterval (bInterval e) (set_bInterval T e) = e.
Proof.
  intros Hr. destruct e as [a b i]. unfold set_bInterval. cbn in *.
  f_equal. by apply Z.mod_small.
Qed.

(** What a restore does to a patched endpoint, given the store the patch
    left. *)
Lemma restored_patched T pre e post :
  fits_store (pre ++ e :: post) →
  0 ≤ T < 256 →
  restored
    (entry_of <$> take 2 (filter (λ x, needs_patch T x = true) (pre ++ e :: post)))
    (patched T e) = e.
Proof.
  intros (Hcount & Hnd & Hrange) HT.
  destruct (is_interrupt e) eqn:Hint; cycle 1.
  { assert (patched T e = e) as ->.
    { unfold patched, needs_patch. by rewrite Hint. }
    unfold restored, restore_target. by rewrite Hint. }
  rewrite interrupt_addresses_app, interrupt_addresses_cons_interrupt in Hcount, Hnd
    by done.
  apply NoDup_app in Hnd as (_ & Hpre & [Hpost _]%NoDup_cons).
  assert (bEndpointAddress e ∉ interrupt_addresses pre) as Ha.
  { intros Hin. apply (Hpre _ Hin). left. }
  rewrite length_app in Hcount. cbn [length] in Hcount.
  change (Z.to_nat MAX_PATCHED_EPS) with 2%nat in Hcount.
  pose proof (length_filter_needs_patch T pre) as Hle.
  unfold patched. destruct (needs_patch T e) eqn:Hnp.
  - unfold restored, restore_target.
    change (is_interrupt (set_bInterval T e)) with (is_interrupt e).
    change (bEndpointAddress (set_bInterval T e)) with (bEndpointAddress e).
    rewrite Hint, find_committed_Some by (done || lia).
    assert (bInterval (set_bInterval T e) = T) as -> by (by apply Z.mod_small).
    unfold needs_patch in Hnp. rewrite Hint in Hnp. cbn in Hnp.
    apply negb_true_iff, Z.eqb_neq in Hnp.
    destruct (Z.eqb_spec T (bInterval e)) as [Heq|_]; [congruence|]. cbn.
    apply set_bInterval_back.
    unfold intervals_in_range in Hrange. rewrite Forall_forall in Hrange.
    apply Hrange, elem_of_app. right. left.
  - apply restored_not_found.
    rewrite filter_app, filter_needs_patch_cons, Hnp, <- filter_app.
    apply find_committed_None. rewrite interrupt_addresses_app.
    by apply not_elem_of_app.
Qed.

Lemma roundtrip_list T eps :
  fits_store eps →
  0 ≤ T < 256 →
  restored (entry_of <$> take 2 (filter (λ x, needs_patch T x = true) eps))
    <$> (patched T <$> eps) = eps.
Proof.
  intros Hfits HT. apply list_eq. intros i. rewrite !list_lookup_fmap.
  destruct (eps !! i) as [e|] eqn:He; cbn; [|done]. f_equal.
  pose proof (take_drop_middle eps i e He) as Hsplit.
  set (pre := take i eps) in *. set (post := drop (S i) eps) in *.
  clearbody pre post. subst eps. by apply restored_patched.
Qed.

Lemma device_put_hid_endpoints d eps eps' :
  device_hid_endpoints d = Some eps →
  length eps' = length eps →
  device_hid_endpoints (device_put_hid d eps') = Some eps'.
Proof.
  unfold device_hid_endpoints, device_put_hid. cbn.
  destruct (actconfig d) as [cfg|]; [|done]. cbn.
  apply config_put_hid_endpoints.
Qed.

Lemma device_put_hid_back d eps eps' :
  device_hid_endpoints d = Some eps →
  length eps' = length eps →
  device_put_hid (device_put_hid d eps') eps = d.
Proof.
  unfold device_hid_endpoints, device_put_hid. cbn.
  destruct (actconfig d) as [cfg|] eqn:Ha; [|done]. cbn. intros Hh Hlen.
  rewrite (config_put_hid_put cfg eps eps' eps Hh Hlen).
  rewrite (config_put_hid_same cfg eps Hh). destruct d; cbn in *. by rewrite Ha.
Qed.

Lemma hid_endpoints_same_memory st st' :
  dualsense_device st' = dualsense_device st →
  devices st' = devices st →
  hid_endpoints st' = hid_endpoints st.
Proof. unfold hid_endpoints, managed_config. by intros -> ->. Qed.

Lemma patch_restore_memory env1 env2 st :
  store_sized st →
  0 ≤ configured_interval st < 256 →
  (∀ eps, hid_endpoints st = Some eps → fits_store eps) →
  devices (Restore env2 (Patch env1 st)) = devices st.
Proof.
  intros Hsz HT Hfits.
  { destruct (hid_endpoints st) as [eps|] eqn:Hh.
    - destruct (hid_endpoints_device st eps Hh) as (p & d & Hp & Hd & Hde).
      specialize (Hfits eps eq_refl).
      pose proof Hfits as (Hcount & _).
      set (T := configured_interval st) in *.
      assert (devices (Patch env1 st)
              = <[p := device_put_hid d (patched T <$> eps)]> (devices st)) as Hd1.
      { unfold Patch. rewrite (engine_devices false env1 st p d eps Hp Hd Hde).
        fold T. rewrite walk_endpoints_patch_map; [done|done|].
        cbn. unfold MAX_PATCHED_EPS in *. lia. }
      assert (dualsense_device (Patch env1 st) = Some p) as Hp1.
      { unfold Patch. by rewrite (proj1 (engine_frame _ _ _)). }
      assert (configured_interval (Patch env1 st) = T) as HT1.
      { unfold Patch. by rewrite (proj1 (proj2 (engine_frame _ _ _))). }
      assert (device_hid_endpoints (device_put_hid d (patched T <$> eps))
              = Some (patched T <$> eps)) as Hde1.
      { apply (device_put_hid_endpoints d eps); [done|by rewrite length_fmap]. }
      unfold Restore.
      rewrite (engine_devices true env2 (Patch env1 st) p _ _ Hp1
                 ltac:(by rewrite Hd1, lookup_insert_eq) Hde1).
      rewrite walk_endpoints_restore. cbn [fst].
      change (committed (initial_walk true (Patch env1 st)))
        with (store_of (Patch env1 st)).
      rewrite (proj1 (patch_store env1 st eps Hsz Hh)). fold T.
      rewrite (roundtrip_list T eps Hfits HT).
      rewrite (device_put_hid_back d eps) by (done || by rewrite length_fmap).
      rewrite Hd1, insert_insert_eq. by apply insert_id.
    - destruct (engine_no_hid false env1 st Hh) as (Hh1 & Hd1 & _).
      fold (Patch env1 st) in Hh1, Hd1.
      destruct (engine_no_hid true env2 (Patch env1 st) Hh1) as (_ & Hd2 & _).
      fold (Restore env2 (Patch env1 st)) in Hd2. congruence. }
Qed.

(** X6: on a device whose HID interface has at most two interrupt
    endpoints, with distinct addresses and byte intervals, and with a byte
    target, a Patch followed by a Restore leaves the memory of every device
    exactly as it was before the Patch: all intervals are back, nothing else
    was touched. *)
Theorem X6_patch_restore_round_trip env1 env2 st :
  store_sized st →
  0 ≤ configured_interval st < 256 →
  (∀ eps, hid_endpoints st = Some eps → fits_store eps) →
  devices (Restore env2 (Patch env1 st)) = devices st
  ∧ hid_endpoints (Restore env2 (Patch env1 st)) = hid_endpoints st.
Proof.
  intros Hsz HT Hfits.
  pose proof (patch_restore_memory env1 env2 st Hsz HT Hfits) as Hdev.
  split; [done|]. apply hid_endpoints_same_memory; [|done].
  unfold Restore, Patch. by rewrite !(proj1 (engine_frame _ _ _)).
Qed.

Lemma X6_patch_restore_round_trip_witness :
  let st := acquired 1 ds_ptr bulk_bus in
  devices (Restore core_lock_fails (Patch core_ok st)) = devices st
  ∧ hid_endpoints (Restore core_lock_fails (Patch core_ok st)) = hid_endpoints st.
Proof.
  apply (X6_patch_restore_round_trip core_ok core_lock_fails
           (acquired 1 ds_ptr bulk_bus)).
  - reflexivity.
  - cbn. lia.
  - intros eps Heps. vm_compute in Heps. simplify_eq. split_and!.
    + vm_compute. lia.
    + apply (bool_decide_unpack _). by vm_compute.
    + repeat constructor; cbn; lia.
Defined.

(** ** Restore without entries, Restore twice, Patch twice *)

Lemma restore_unrecorded env st :
  (∀ eps e, hid_endpoints st = Some eps → e ∈ eps → is_interrupt e = true →
            lookupOriginal st (bEndpointAddress e) = None) →
  Restore env st = st.
Proof.
  intros Hnone. destruct (hid_endpoints st) as [eps|] eqn:Hh.
  - assert (∀ e, e ∈ eps → restore_target (store_of st) e = None) as Ht.
    { intros e He. unfold restore_target.
      destruct (is_interrupt e) eqn:Hint; [|done]. by apply (Hnone eps). }
    destruct (engine_hid true env st eps Hh)
      as (_ & Hi & Hn & _ & Hp & Hc & Hcalls & Hdev).
    fold (Restore env st) in *.
    rewrite walk_endpoints_restore in *. cbn [fst snd with_changed w_infos
      w_num w_changed initial_walk orb] in *.
    change (committed (initial_walk true st)) with (store_of st) in *.
    assert (restored (store_of st) <$> eps = eps) as Heps.
    { rewrite <- (list_fmap_id eps) at 2. apply list_fmap_ext.
      intros i e He. unfold restored.
      by rewrite (Ht e (list_elem_of_lookup_2 _ _ _ He)). }
    assert (existsb (restore_changes (store_of st)) eps = false) as Hex.
    { clear -Ht. induction eps as [|e eps IH]; [done|]. cbn.
      unfold restore_changes at 1. rewrite (Ht e) by left. cbn.
      apply IH. intros e' He'. apply Ht. by right. }
    rewrite Hex in Hcalls.
    apply module_state_eq; try done.
    + by apply Hdev.
    + apply hid_endpoints_Some in Hh as (p & d & cfg & Hm & _).
      apply managed_config_Some in Hm as (Hp' & _).
      rewrite (Hcalls p Hp'). apply app_nil_r.
  - destruct (engine_no_hid true env st Hh) as (_ & ? & ? & _ & ? & Hn & ? & ?).
    apply module_state_eq; try done. by apply Hn.
Qed.

(** X7: a Restore that finds no entry for any interrupt endpoint it walks
    (in particular with the entry count at zero) returns the whole state as
    it is: no descriptor is written, no lock or reset is called. *)
Theorem X7_restore_without_entries_is_identity env st :
  (∀ eps e, hid_endpoints st = Some eps → e ∈ eps → is_interrupt e = true →
            lookupOriginal st (bEndpointAddress e) = None) →
  Restore env st = st.
Proof. apply restore_unrecorded. Qed.

Lemma X7_restore_without_entries_is_identity_witness :
  Restore core_ok (acquired 1 ds_ptr ds_bus) = acquired 1 ds_ptr ds_bus.
Proof.
  apply (X7_restore_without_entries_is_identity core_ok (acquired 1 ds_ptr ds_bus)).
  intros eps e _ _ _. reflexivity.
Defined.

Lemma with_interval_same v st : configured_interval st = v → with_interval v st = st.
Proof. intros <-. by destruct st. Qed.

Lemma filter_needs_patch_at_target T eps :
  Forall (λ e, is_interrupt e = true → bInterval e = T) eps →
  filter (λ e, needs_patch T e = true) eps = [].
Proof.
  induction 1 as [|e eps He _ IH]; [done|].
  rewrite filter_needs_patch_cons, IH. unfold needs_patch.
  destruct (is_interrupt e); [|done]. by rewrite (He eq_refl), Z.eqb_refl.
Qed.

(** X8: writing the rate that is already configured runs a second Patch,
    which finds every endpoint at the target: it changes no descriptor and
    makes no call, but it has reset the entry count, so the originals are
    forgotten and a Restore that follows does nothing at all. *)
Theorem X8_same_rate_again_forgets_originals env1 env2 env3 st eps :
  store_sized st →
  valid_rate st →
  hid_endpoints st = Some eps →
  (length (interrupt_addresses eps) ≤ 2)%nat →
  let st1 := Patch env1 st in
  let st2 := (on_interval_changed env2 0 (configured_interval st) st1).2 in
  hid_endpoints st2 = hid_endpoints st1
  ∧ num_actually_patched_eps st2 = 0
  ∧ calls st2 = calls st1
  ∧ Restore env3 st2 = st2.
Proof.
  intros Hsz Hrate Hh Hcount. cbv zeta. unfold valid_rate in Hrate.
  set (T := configured_interval st) in *.
  assert (hid_endpoints (Patch env1 st) = Some (patched T <$> eps)) as Hh1.
  { unfold Patch. destruct (engine_hid false env1 st eps Hh) as (-> & _).
    fold T. rewrite walk_endpoints_patch_map; [done|done|].
    cbn. unfold MAX_PATCHED_EPS. lia. }
  assert (Forall (λ e, is_interrupt e = true → bInterval e = T)
            (patched T <$> eps)) as Hall.
  { apply Forall_fmap, Forall_forall. intros e _ Hint. cbn in *.
    apply patched_at_target; [lia|].
    by rewrite <- (same_endpoint_is_interrupt _ _ (patched_same T e)). }
  assert (configured_interval (Patch env1 st) = T) as HT1.
  { unfold Patch. by rewrite (proj1 (proj2 (engine_frame _ _ _))). }
  assert (is_Some (dualsense_device (Patch env1 st))) as Hman.
  { apply hid_endpoints_Some in Hh1 as (p & d & cfg & Hm & _).
    apply managed_config_Some in Hm as (-> & _). by eexists. }
  rewrite (on_interval_changed_managed env2 T _ Hrate Hman).
  rewrite (with_interval_same T _ HT1).
  set (st1 := Patch env1 st) in *.
  assert (store_sized st1) as Hsz1 by (by apply (engine_store_sized false)).
  destruct (engine_hid false env2 st1 _ Hh1)
    as (Hh2 & _ & _ & _ & _ & _ & Hcalls & _).
  fold (Patch env2 st1) in *. rewrite HT1 in *.
  destruct (walk_endpoints_patch_at_target T (patched T <$> eps)
              (initial_walk false st1) Hall) as [Heps Hch].
  cbn [initial_walk w_changed] in Hch. rewrite Heps in Hh2. rewrite Hch in Hcalls.
  destruct (patch_store env2 st1 _ Hsz1 Hh1) as [_ Hnum].
  rewrite HT1, (filter_needs_patch_at_target T _ Hall) in Hnum. cbn in Hnum.
  split_and!.
  - congruence.
  - done.
  - destruct Hman as [p Hp]. rewrite (Hcalls p Hp). apply app_nil_r.
  - apply restore_unrecorded. intros eps' e _ _ _.
    unfold lookupOriginal, lookup_original. by rewrite Hnum.
Qed.

Lemma X8_same_rate_again_forgets_originals_witness :
  let st1 := Patch core_ok (acquired 1 ds_ptr ds_bus) in
  let st2 := (on_interval_changed core_ok 0 1 st1).2 in
  hid_endpoints st2 = hid_endpoints st1
  ∧ num_actually_patched_eps st2 = 0
  ∧ calls st2 = calls st1
  ∧ Restore core_ok st2 = st2.
Proof.
  apply (X8_same_rate_again_forgets_originals core_ok core_ok core_ok
           (acquired 1 ds_ptr ds_bus) [ds_ep_in; ds_ep_out]).
  - reflexivity.
  - unfold valid_rate. cbn. lia.
  - reflexivity.
  - vm_compute. lia.
Defined.

(** X9: two Restores in a row equal one, in every state whose stored
    originals are byte values: the second one writes no descriptor and makes
    no call. *)
Theorem X9_restore_is_idempotent env env' st :
  store_in_range (store_of st) →
  Restore env' (Restore env st) = Restore env st.
Proof. apply restore_restore. Qed.

Lemma X9_restore_is_idempotent_witness :
  let st := Patch core_ok (acquired 1 ds_ptr tri_bus) in
  Restore core_lock_fails (Restore core_ok st) = Restore core_ok st.
Proof.
  apply (X9_restore_is_idempotent core_ok core_lock_fails
           (Patch core_ok (acquired 1 ds_ptr tri_bus))).
  unfold store_in_range. vm_compute. repeat constructor; discriminate.
Defined.

(** ** A reset exactly when a descriptor changed *)

Lemma visit_endpoint_changed_cases restore T e w :
  ((visit_endpoint restore T e w).1 = e
   ∧ w_changed (visit_endpoint restore T e w).2 = w_changed w)
  ∨ (w_changed (visit_endpoint restore T e w).2 = true
     ∧ (targets_in_range restore T w → (visit_endpoint restore T e w).1 ≠ e)).
Proof.
  unfold visit_endpoint, choose_target.
  destruct (_ || _); [|by left].
  destruct restore.
  - unfold lookup_original. fold (committed w).
    destruct (find_restore_info _ _) as [orig|] eqn:Hf; [|by left].
    destruct (Z.eqb_spec (bInterval e) orig) as [Heq|Hne]; cbn; [by left|right].
    split; [done|]. intros Hrange Habs.
    apply find_restore_info_elem in Hf as (r & Hin & _ & <-).
    unfold targets_in_range, store_in_range in Hrange.
    rewrite Forall_forall in Hrange. specialize (Hrange r Hin).
    apply (f_equal bInterval) in Habs. cbn in Habs.
    rewrite Z.mod_small in Habs by done. congruence.
  - destruct (w_num w <? MAX_PATCHED_EPS); [|by left].
    destruct (Z.eqb_spec (bInterval e) T) as [Heq|Hne]; cbn; [by left|right].
    split; [done|]. intros Hrange Habs.
    apply (f_equal bInterval) in Habs. cbn in Habs. unfold targets_in_range in Hrange.
    rewrite Z.mod_small in Habs by done. congruence.
Qed.

Lemma visit_endpoint_targets_in_range restore T e w :
  targets_in_range restore T w →
  targets_in_range restore T (visit_endpoint restore T e w).2.
Proof.
  destruct restore; [|done]. unfold targets_in_range, committed.
  by destruct (visit_endpoint_restore_store T e w) as [-> ->].
Qed.

Lemma walk_endpoints_changed_mono restore T eps w :
  w_changed w = true → w_changed (walk_endpoints restore T eps w).2 = true.
Proof.
  revert w. induction eps as [|e eps IH]; intros w Hw; [done|].
  rewrite walk_endpoints_cons. cbn [snd]. apply IH.
  destruct (visit_endpoint_changed_cases restore T e w) as [[_ ->]|[-> _]]; done.
Qed.

(** The flag [changed_anything] says whether the walk changed an endpoint. *)
Lemma walk_endpoints_changed_iff restore T eps w :
  targets_in_range restore T w →
  w_changed w = false →
  w_changed (walk_endpoints restore T eps w).2 = false
  ↔ (walk_endpoints restore T eps w).1 = eps.
Proof.
  revert w. induction eps as [|e eps IH]; intros w Hrange Hw; [done|].
  rewrite walk_endpoints_cons. cbn [fst snd].
  pose proof (visit_endpoint_targets_in_range restore T e w Hrange) as Hrange'.
  destruct (visit_endpoint_changed_cases restore T e w) as [[He Hc]|[Hc Hne]].
  - rewrite He. rewrite (IH _ Hrange') by congruence.
    split; [by intros ->|by intros [= ->]].
  - rewrite (walk_endpoints_changed_mono _ _ _ _ Hc).
    split; [done|]. intros [= Habs _]. by destruct (Hne Hrange).
Qed.

(** X10: with a byte target and byte originals in the store, the engine
    (in either mode) calls into the USB core exactly when it changed a
    descriptor: [changed_anything] is false, the device memory is unchanged
    and the call log is unchanged are one and the same condition. *)
Theorem X10_reset_iff_descriptor_changed restore env st :
  0 ≤ configured_interval st < 256 →
  store_in_range (store_of st) →
  let st' := patch_or_restore_dualsense_endpoints restore env st in
  (changed_anything restore st = false ↔ devices st' = devices st)
  ∧ (changed_anything restore st = false ↔ calls st' = calls st).
Proof.
  intros HT Hstore. cbv zeta.
  destruct (hid_endpoints st) as [eps|] eqn:Hh.
  - destruct (engine_hid restore env st eps Hh)
      as (Hh' & _ & _ & -> & Hp & _ & Hcalls & Hdev).
    assert (targets_in_range restore (configured_interval st)
              (initial_walk restore st)) as Hrange.
    { destruct restore; [exact Hstore|exact HT]. }
    pose proof (walk_endpoints_changed_iff restore (configured_interval st) eps
                  (initial_walk restore st) Hrange eq_refl) as Hiff.
    apply hid_endpoints_Some in Hh as Hm. destruct Hm as (p & d & cfg & Hm & _).
    apply managed_config_Some in Hm as (Hp' & _).
    rewrite (Hcalls p Hp'). split; split.
    + intros Hc. by apply Hdev, Hiff.
    + intros Hd. apply Hiff.
      pose proof (hid_endpoints_same_memory st _ Hp Hd) as Heq.
      rewrite Hh', Hh in Heq. by injection Heq.
    + by intros ->; rewrite app_nil_r.
    + destruct (w_changed _); [|done]. intros Hc.
      apply (f_equal length) in Hc. rewrite length_app in Hc.
      unfold scoped_apply in Hc. rewrite length_app in Hc. cbn in Hc. lia.
  - by destruct (engine_no_hid restore env st Hh) as (_ & -> & -> & -> & _).
Qed.

Lemma X10_reset_iff_descriptor_changed_witness :
  let st := acquired 1 ds_ptr ds_bus in
  (changed_anything false st = false ↔ devices (Patch core_ok st) = devices st)
  ∧ (changed_anything false st = false ↔ calls (Patch core_ok st) = calls st).
Proof.
  apply (X10_reset_iff_descriptor_changed false core_ok (acquired 1 ds_ptr ds_bus)).
  - cbn. lia.
  - constructor.
Defined.

(** ** The tracker's callbacks *)

(** X11: a notification is ignored, the state left exactly as it is, if the
    device is not a DualSense, or the action is neither Add nor Remove, or
    it is a Remove for a device other than the managed one; and the visitor
    of the enumeration passes over a device that is not a DualSense,
    returning 0 so that the enumeration goes on. *)
Theorem X11_ignored_notifications env action udev d st :
  devices st !! udev = Some d →
  (is_dualsense d = false
   ∨ (action ≠ USB_DEVICE_ADD ∧ action ≠ USB_DEVICE_REMOVE)
   ∨ (action = USB_DEVICE_REMOVE ∧ dualsense_device st ≠ Some udev)) →
  on_usb_notify env action udev st = st
  ∧ (is_dualsense d = false → check_existing_device_cb env udev st = (0, st)).
Proof.
  intros Hd Hcase. unfold on_usb_notify, check_existing_device_cb. rewrite Hd.
  split; [|by intros ->].
  destruct (is_dualsense d); cbn [negb]; [|done].
  destruct Hcase as [?|[[Hadd Hrem]|[-> Hother]]]; [done| |].
  - apply Z.eqb_neq in Hadd as ->. by apply Z.eqb_neq in Hrem as ->.
  - cbn. by rewrite decide_False.
Qed.

Lemma X11_ignored_notifications_witness :
  let st := Patch core_ok (acquired 1 ds_ptr mixed_bus) in
  (on_usb_notify core_ok USB_DEVICE_ADD kbd_ptr st = st
   ∧ (is_dualsense keyboard = false →
      check_existing_device_cb core_ok kbd_ptr st = (0, st)))
  ∧ (on_usb_notify core_ok USB_DEVICE_REMOVE ds_ptr' st = st
     ∧ (is_dualsense (ds_device [ds_ep_in; ds_ep_out]) = false →
        check_existing_device_cb core_ok ds_ptr' st = (0, st))).
Proof.
  split.
  - apply (X11_ignored_notifications core_ok USB_DEVICE_ADD kbd_ptr
             keyboard
             (Patch core_ok (acquired 1 ds_ptr mixed_bus))); [reflexivity|].
    by left.
  - apply (X11_ignored_notifications core_ok USB_DEVICE_REMOVE ds_ptr'
             (ds_device [ds_ep_in; ds_ep_out])
             (Patch core_ok (acquired 1 ds_ptr mixed_bus))); [reflexivity|].
    right. right. split; [done|]. vm_compute. discriminate.
Defined.

Lemma usb_for_each_dev_first env present st :
  dualsense_device st = None →
  usb_for_each_dev env present st =
  match first_dualsense (devices st) present with
  | None => st
  | Some p => Patch env (acquire p st)
  end.
Proof.
  intros Hnone. induction present as [|p present IH]; [done|].
  cbn [usb_for_each_dev first_dualsense]. unfold check_existing_device_cb.
  destruct (devices st !! p) as [d|]; [|exact IH].
  destruct (is_dualsense d); [|exact IH]. by rewrite Hnone.
Qed.

Lemma clamp_configured_interval_frame st :
  restore_infos (clamp_configured_interval st) = restore_infos st
  ∧ num_actually_patched_eps (clamp_configured_interval st)
    = num_actually_patched_eps st
  ∧ dualsense_device (clamp_configured_interval st) = dualsense_device st
  ∧ devices (clamp_configured_interval st) = devices st
  ∧ calls (clamp_configured_interval st) = calls st.
Proof.
  unfold clamp_configured_interval.
  destruct (_ =? 0); [done|]. by destruct (_ >? 255).
Qed.

Lemma check_existing_device_cb_result env p d st :
  devices st !! p = Some d →
  (check_existing_device_cb env p st).1 = (if is_dualsense d then 1 else 0).
Proof.
  intros Hd. unfold check_existing_device_cb. rewrite Hd.
  destruct (is_dualsense d); [|done]. by destruct (dualsense_device st).
Qed.

(** The enumeration is the visitor applied to the devices it visits. *)
Lemma usb_for_each_dev_visited env present st :
  usb_for_each_dev env present st =
  foldl (λ s p, (check_existing_device_cb env p s).2) st (visited env present st).
Proof.
  revert st. induction present as [|p present IH]; intros st; [done|].
  cbn [usb_for_each_dev visited].
  destruct (check_existing_device_cb env p st) as [r st'] eqn:Hcb.
  cbn [foldl]. rewrite Hcb. cbn [snd]. destruct (r =? 0); [apply IH|done].
Qed.

(** The visits end with the first DualSense. *)
Lemma visited_up_to_first env present st :
  visited env present st = up_to_first_dualsense (devices st) present.
Proof.
  induction present as [|p present IH]; [done|].
  cbn [visited up_to_first_dualsense]. unfold check_existing_device_cb.
  destruct (devices st !! p) as [d|]; [|cbn; by rewrite IH].
  destruct (is_dualsense d); [|cbn; by rewrite IH].
  by destruct (dualsense_device st).
Qed.

(** X12: at load time the module validates the rate and then takes the
    first DualSense of the enumeration, and only that one, under management
    and patches it; the enumeration stops there: the visitor returns 1 on a
    DualSense (whether it took it or one was managed already) and 0 on any
    other device, and the devices visited are those of the enumeration up
    to and including the first DualSense, none after it.  Without a
    DualSense on the bus only the rate is validated and every device is
    visited. *)
Theorem X12_init_takes_first_dualsense env present st :
  dualsense_device st = None →
  ds_oc_init env present st =
    match first_dualsense (devices st) present with
    | None => clamp_configured_interval st
    | Some p => Patch env (acquire p (clamp_configured_interval st))
    end
  ∧ visited env present (clamp_configured_interval st)
    = up_to_first_dualsense (devices st) present
  ∧ ds_oc_init env present st =
    foldl (λ s p, (check_existing_device_cb env p s).2)
      (clamp_configured_interval st)
      (visited env present (clamp_configured_interval st))
  ∧ (∀ s p d, devices s !! p = Some d →
       (check_existing_device_cb env p s).1 = (if is_dualsense d then 1 else 0)).
Proof.
  intros Hnone.
  destruct (clamp_configured_interval_frame st) as (_ & _ & Hd & Hm & _).
  split_and!.
  - unfold ds_oc_init. rewrite usb_for_each_dev_first by congruence.
    by rewrite Hm.
  - by rewrite visited_up_to_first, Hm.
  - unfold ds_oc_init. apply usb_for_each_dev_visited.
  - intros s p d. apply check_existing_device_cb_result.
Qed.

Lemma X12_init_takes_first_dualsense_witness :
  ds_oc_init core_ok [kbd_ptr; ds_ptr'; ds_ptr] (loaded 0 mixed_bus)
  = Patch core_ok (acquire ds_ptr' (loaded 1 mixed_bus))
  ∧ visited core_ok [kbd_ptr; ds_ptr'; ds_ptr] (loaded 1 mixed_bus)
    = [kbd_ptr; ds_ptr']
  ∧ (check_existing_device_cb core_ok ds_ptr' (loaded 1 mixed_bus)).1 = 1
  ∧ (check_existing_device_cb core_ok kbd_ptr (loaded 1 mixed_bus)).1 = 0.
Proof.
  destruct (X12_init_takes_first_dualsense core_ok [kbd_ptr; ds_ptr'; ds_ptr]
              (loaded 0 mixed_bus)) as (H1 & H2 & _ & H4); [reflexivity|].
  split_and!.
  - rewrite H1. reflexivity.
  - exact H2.
  - apply (H4 (loaded 1 mixed_bus) ds_ptr' (ds_device [ds_ep_in; ds_ep_out])).
    reflexivity.
  - apply (H4 (loaded 1 mixed_bus) kbd_ptr keyboard). reflexivity.
Defined.

Lemma ref_add_back d : ref_add (-1) (ref_add 1 d) = d.
Proof. destruct d. unfold ref_add. cbn. f_equal. lia. Qed.

Lemma usb_put_get_dev p m : usb_put_dev p (usb_get_dev p m) = m.
Proof.
  unfold usb_put_dev, usb_get_dev. apply map_eq. intros q.
  destruct (decide (p = q)) as [<-|Hne].
  - rewrite !lookup_alter_eq. destruct (m !! p); [|done]. cbn.
    by rewrite ref_add_back.
  - by rewrite !lookup_alter_ne.
Qed.

Lemma clamp_configured_interval_range st :
  0 ≤ configured_interval st →
  1 ≤ configured_interval (clamp_configured_interval st) ≤ 255.
Proof.
  intros H. unfold clamp_configured_interval.
  destruct (Z.eqb_spec (configured_interval st) 0); [cbn; lia|].
  destruct (Z.gtb_spec (configured_interval st) 255); cbn; lia.
Qed.

Lemma acquire_hid_endpoints p d st :
  devices st !! p = Some d →
  hid_endpoints (acquire p st) = device_hid_endpoints d.
Proof.
  intros Hd. unfold hid_endpoints, managed_config, acquire, device_hid_endpoints.
  cbn. unfold usb_get_dev. rewrite lookup_alter_eq, Hd. cbn.
  by destruct (actconfig d).
Qed.

(** X13: loading and unloading the module leaves the memory of every
    device as it found it.  If the first DualSense of the enumeration has at
    most two interrupt endpoints on its HID interface, with distinct
    addresses and byte intervals, then after [ds_oc_init] and [ds_oc_exit]
    all descriptors and reference counts are as before and no device is
    managed, whatever rate was configured. *)
Theorem X13_load_then_unload_restores env1 env2 present st p d :
  dualsense_device st = None →
  store_sized st →
  0 ≤ configured_interval st →
  first_dualsense (devices st) present = Some p →
  devices st !! p = Some d →
  (∀ eps, device_hid_endpoints d = Some eps → fits_store eps) →
  let st' := ds_oc_exit env2 (ds_oc_init env1 present st) in
  devices st' = devices st ∧ dualsense_device st' = None.
Proof.
  intros Hnone Hsz Hrate Hfirst Hd Hfits. cbv zeta.
  destruct (clamp_configured_interval_frame st) as (Hi & _ & Hm & Hdv & _).
  unfold ds_oc_init. rewrite usb_for_each_dev_first by congruence.
  rewrite Hdv, Hfirst. set (sa := acquire p (clamp_configured_interval st)).
  unfold ds_oc_exit.
  assert (dualsense_device (Patch env1 sa) = Some p) as ->.
  { unfold Patch. by rewrite (proj1 (engine_frame _ _ _)). }
  fold (Restore env2 (Patch env1 sa)). cbn [with_device devices dualsense_device].
  split; [|done].
  rewrite (patch_restore_memory env1 env2 sa).
  - cbn. rewrite Hdv. apply usb_put_get_dev.
  - unfold store_sized in *. cbn. by rewrite Hi.
  - pose proof (clamp_configured_interval_range st Hrate). cbn. lia.
  - intros eps. unfold sa. rewrite (acquire_hid_endpoints p d) by (by rewrite Hdv).
    apply Hfits.
Qed.

Lemma X13_load_then_unload_restores_witness :
  let st := loaded 9999 mixed_bus in
  let st' := ds_oc_exit core_lock_fails
               (ds_oc_init core_ok [kbd_ptr; ds_ptr'; ds_ptr] st) in
  devices st' = devices st ∧ dualsense_device st' = None.
Proof.
  apply (X13_load_then_unload_restores core_ok core_lock_fails
           [kbd_ptr; ds_ptr'; ds_ptr] (loaded 9999 mixed_bus) ds_ptr'
           (ds_device [ds_ep_in; ds_ep_out])).
  - reflexivity.
  - reflexivity.
  - cbn. lia.
  - reflexivity.
  - reflexivity.
  - intros eps Heps. vm_compute in Heps. simplify_eq. split_and!.
    + vm_compute. lia.
    + apply (bool_decide_unpack _). by vm_compute.
    + repeat constructor; cbn; lia.
Defined.

(** X14: a DualSense that is plugged in while none is managed is taken
    under management and patched; when it is unplugged again the module
    gives up its reference and forgets the store, but the descriptors stay
    as the patch left them, and a module exit after that touches nothing. *)
Theorem X14_add_then_remove env1 env2 env3 st p d :
  dualsense_device st = None →
  devices st !! p = Some d →
  is_dualsense d = true →
  let st1 := on_usb_notify env1 USB_DEVICE_ADD p st in
  let st2 := on_usb_notify env2 USB_DEVICE_REMOVE p st1 in
  st1 = Patch env1 (acquire p st)
  ∧ dualsense_device st1 = Some p
  ∧ dualsense_device st2 = None
  ∧ num_actually_patched_eps st2 = 0
  ∧ (∀ q, refcount <$> devices st2 !! q = refcount <$> devices st !! q)
  ∧ (∀ q, actconfig <$> devices st2 !! q = actconfig <$> devices st1 !! q)
  ∧ calls st2 = calls st1
  ∧ ds_oc_exit env3 st2 = st2.
Proof.
  intros Hnone Hd Hds. cbv zeta.
  assert (on_usb_notify env1 USB_DEVICE_ADD p st = Patch env1 (acquire p st)) as ->.
  { unfold on_usb_notify. by rewrite Hd, Hds, Hnone. }
  set (st1 := Patch env1 (acquire p st)).
  assert (dualsense_device st1 = Some p) as Hp1.
  { unfold st1, Patch. by rewrite (proj1 (engine_frame _ _ _)). }
  destruct (engine_is_dualsense false env1 (acquire p st) p (ref_add 1 d))
    as (d1 & Hd1 & Hds1 & Hr1).
  { cbn. unfold usb_get_dev. by rewrite lookup_alter_eq, Hd. }
  fold (Patch env1 (acquire p st)) in Hd1. fold st1 in Hd1.
  change (is_dualsense (ref_add 1 d)) with (is_dualsense d) in Hds1.
  assert (on_usb_notify env2 USB_DEVICE_REMOVE p st1
          = with_device None (usb_put_dev p (devices st1)) 0 st1) as ->.
  { unfold on_usb_notify. rewrite Hd1, Hds1, Hds. cbn.
    by rewrite decide_True. }
  split_and!; try done.
  - intros q. cbn. unfold usb_put_dev.
    destruct (engine_frame false env1 (acquire p st)) as (_ & _ & Hid).
    specialize (Hid q). fold (Patch env1 (acquire p st)) in Hid. fold st1 in Hid.
    cbn in Hid. unfold usb_get_dev in Hid.
    destruct (decide (p = q)) as [<-|Hne].
    + rewrite lookup_alter_eq, Hd1, Hd. cbn. f_equal. rewrite Hr1. cbn. lia.
    + rewrite lookup_alter_ne by done. rewrite lookup_alter_ne in Hid by done.
      destruct (devices st1 !! q) as [a|], (devices st !! q) as [b|];
        cbn in *; try done.
      unfold identity_of in Hid. by injection Hid as _ _ ->.
  - intros q. cbn. unfold usb_put_dev. destruct (decide (p = q)) as [<-|Hne].
    + by rewrite lookup_alter_eq, Hd1.
    + by rewrite lookup_alter_ne.
Qed.

Lemma X14_add_then_remove_witness :
  let st := loaded 1 ds_bus in
  let st1 := on_usb_notify core_ok USB_DEVICE_ADD ds_ptr st in
  let st2 := on_usb_notify core_ok USB_DEVICE_REMOVE ds_ptr st1 in
  st1 = Patch core_ok (acquire ds_ptr st)
  ∧ dualsense_device st1 = Some ds_ptr
  ∧ dualsense_device st2 = None
  ∧ num_actually_patched_eps st2 = 0
  ∧ (∀ q, refcount <$> devices st2 !! q = refcount <$> devices st !! q)
  ∧ (∀ q, actconfig <$> devices st2 !! q = actconfig <$> devices st1 !! q)
  ∧ calls st2 = calls st1
  ∧ ds_oc_exit core_ok st2 = st2.
Proof.
  apply (X14_add_then_remove core_ok core_ok core_ok (loaded 1 ds_bus) ds_ptr
           (ds_device [ds_ep_in; ds_ep_out])); reflexivity.
Defined.

(** ** What holds between any two callbacks *)

Lemma engine_count_in_bounds restore env st :
  store_sized st → count_in_bounds st →
  count_in_bounds (patch_or_restore_dualsense_endpoints restore env st).
Proof.
  unfold count_in_bounds. intros Hsz Hb.
  destruct (hid_endpoints st) as [eps|] eqn:Hh.
  - destruct restore.
    + pose proof (proj2 (restore_store_frame env st)) as Hn.
      unfold Restore in Hn. by rewrite Hn.
    + destruct (patch_store env st eps Hsz Hh) as [_ Hn].
      unfold Patch in Hn. rewrite Hn, length_take.
      unfold MAX_PATCHED_EPS. lia.
  - unfold patch_or_restore_dualsense_endpoints.
    destruct (managed_config st) as [[[p d] cfg]|] eqn:Hm; [|done].
    pose proof (walk_config_spec restore (configured_interval st) cfg
                  (initial_walk restore st)) as Hspec.
    unfold hid_endpoints in Hh. rewrite Hm in Hh. rewrite Hh in Hspec.
    rewrite Hspec. cbn. destruct restore; [done|]. unfold MAX_PATCHED_EPS. lia.
Qed.

Lemma engine_tracker_inv restore env st :
  tracker_inv st → tracker_inv (patch_or_restore_dualsense_endpoints restore env st).
Proof.
  intros Hinv p. rewrite (proj1 (engine_frame _ _ _)). intros Hp.
  destruct (Hinv p Hp) as (d & Hd & Hds).
  destruct (engine_is_dualsense restore env st p d Hd) as (d' & Hd' & His & _).
  exists d'. by rewrite His.
Qed.

Lemma engine_module_inv restore env st :
  module_inv st → module_inv (patch_or_restore_dualsense_endpoints restore env st).
Proof.
  intros (Hsz & Hb & Hr & Ht). split_and!.
  - by apply engine_store_sized.
  - by apply engine_count_in_bounds.
  - unfold valid_rate. by rewrite (proj1 (proj2 (engine_frame _ _ _))).
  - by apply engine_tracker_inv.
Qed.

Lemma acquire_module_inv env p d st :
  devices st !! p = Some d → is_dualsense d = true →
  module_inv st → module_inv (Patch env (acquire p st)).
Proof.
  intros Hd Hds (Hsz & Hb & Hr & _). split_and!.
  - by apply engine_store_sized.
  - by apply engine_count_in_bounds.
  - unfold valid_rate, Patch. by rewrite (proj1 (proj2 (engine_frame _ _ _))).
  - by apply (acquire_tracker_inv env p d).
Qed.

Lemma on_usb_notify_module_inv env action udev st :
  module_inv st → module_inv (on_usb_notify env action udev st).
Proof.
  intros Hinv. unfold on_usb_notify.
  destruct (devices st !! udev) as [d|] eqn:Hd; [|done].
  destruct (is_dualsense d) eqn:Hds; cbn [negb]; [|done].
  destruct (action =? USB_DEVICE_ADD).
  { destruct (dualsense_device st); [done|]. by apply (acquire_module_inv env udev d). }
  destruct (action =? USB_DEVICE_REMOVE); [|done].
  destruct (decide _); [|done].
  destruct Hinv as (Hsz & Hb & Hr & _). by split_and!.
Qed.

Lemma check_existing_device_cb_module_inv env udev st :
  module_inv st → module_inv (check_existing_device_cb env udev st).2.
Proof.
  intros Hinv. unfold check_existing_device_cb.
  destruct (devices st !! udev) as [d|] eqn:Hd; [|done].
  destruct (is_dualsense d) eqn:Hds; [|done].
  destruct (dualsense_device st); [done|]. by apply (acquire_module_inv env udev d).
Qed.

Lemma clamp_module_inv st :
  store_sized st → count_in_bounds st → tracker_inv st →
  0 ≤ configured_interval st →
  module_inv (clamp_configured_interval st).
Proof.
  intros Hsz Hb Ht Hr.
  destruct (clamp_configured_interval_frame st) as (Hi & Hn & Hp & Hd & _).
  split_and!.
  - unfold store_sized. by rewrite Hi.
  - unfold count_in_bounds. by rewrite Hn.
  - by apply clamp_configured_interval_range.
  - intros p. rewrite Hp, Hd. apply Ht.
Qed.

Lemma on_interval_changed_module_inv env ret parsed st :
  0 ≤ parsed < 65536 →
  module_inv st → module_inv (on_interval_changed env ret parsed st).2.
Proof.
  intros Hparsed Hinv. unfold on_interval_changed.
  destruct (ret =? 0); [|done].
  assert (module_inv (clamp_configured_interval (with_interval parsed st))) as Hc.
  { destruct Hinv as (Hsz & Hb & _ & Ht). apply clamp_module_inv; try done.
    cbn. lia. }
  destruct (dualsense_device _); [|done]. by apply engine_module_inv.
Qed.

Lemma serve_module_inv st r :
  request_ok r → module_inv st → module_inv (serve st r).
Proof.
  destruct r as [env action udev|env udev|env ret parsed]; cbn [serve request_ok];
    intros Hok Hinv.
  - by apply on_usb_notify_module_inv.
  - by apply check_existing_device_cb_module_inv.
  - by apply on_interval_changed_module_inv.
Qed.

Lemma serve_all_module_inv rs st :
  Forall request_ok rs → module_inv st → module_inv (serve_all rs st).
Proof.
  intros Hok. revert st. unfold serve_all.
  induction Hok as [|r rs Hr _ IH]; intros st Hinv; [done|].
  cbn [foldl]. by apply IH, serve_module_inv.
Qed.

Lemma usb_for_each_dev_module_inv env present st :
  module_inv st → module_inv (usb_for_each_dev env present st).
Proof.
  revert st. induction present as [|p present IH]; intros st Hinv; [done|].
  cbn [usb_for_each_dev].
  pose proof (check_existing_device_cb_module_inv env p st Hinv) as Hcb.
  destruct (check_existing_device_cb env p st) as [r st']. cbn [snd] in Hcb.
  destruct (r =? 0); [by apply IH|done].
Qed.

(** X15: from the moment [ds_oc_init] has run, and after any sequence of
    hotplug notifications, enumeration visits and writes to the rate
    parameter, the array [restore_infos] has its two elements, the entry
    count is between 0 and 2 (so every index the engine uses is inside the
    array), the rate is between 1 and 255, and the managed pointer, if set,
    points to a device that passed the vendor/product filter. *)
Theorem X15_invariants_of_the_loaded_module env present rs st0 :
  dualsense_device st0 = None →
  store_sized st0 →
  count_in_bounds st0 →
  0 ≤ configured_interval st0 →
  Forall request_ok rs →
  module_inv (serve_all rs (ds_oc_init env present st0)).
Proof.
  intros Hnone Hsz Hb Hr Hok.
  apply serve_all_module_inv; [done|]. unfold ds_oc_init.
  apply usb_for_each_dev_module_inv, clamp_module_inv; try done.
  intros p. congruence.
Qed.

Lemma X15_invariants_of_the_loaded_module_witness :
  module_inv
    (serve_all [SetRate core_ok 0 0; Hotplug core_ok USB_DEVICE_REMOVE ds_ptr;
                Hotplug core_lock_fails USB_DEVICE_ADD ds_ptr';
                SetRate core_ok 0 9999]
       (ds_oc_init core_ok [ds_ptr; ds_ptr'] (loaded 1 ds_two_bus))).
Proof.
  apply (X15_invariants_of_the_loaded_module core_ok [ds_ptr; ds_ptr']
           [SetRate core_ok 0 0; Hotplug core_ok USB_DEVICE_REMOVE ds_ptr;
            Hotplug core_lock_fails USB_DEVICE_ADD ds_ptr';
            SetRate core_ok 0 9999] (loaded 1 ds_two_bus)).
  - reflexivity.
  - reflexivity.
  - unfold count_in_bounds, MAX_PATCHED_EPS. cbn. lia.
  - cbn. lia.
  - repeat constructor; cbn; lia.
Defined.

(** ** References over the life of the module *)

Lemma holds_same_memory st0 st st' :
  devices st' = devices st →
  dualsense_device st' = dualsense_device st →
  holds_only_managed st0 st → holds_only_managed st0 st'.
Proof. unfold holds_only_managed. by intros -> ->. Qed.

Lemma engine_holds restore env st0 st :
  holds_only_managed st0 st →
  holds_only_managed st0 (patch_or_restore_dualsense_endpoints restore env st).
Proof.
  intros Hinv p d0 Hd0. destruct (Hinv p d0 Hd0) as (d & Hd & Hr).
  destruct (engine_is_dualsense restore env st p d Hd) as (d' & Hd' & _ & Hr').
  exists d'. split; [done|]. rewrite (proj1 (engine_frame _ _ _)). lia.
Qed.

Lemma on_interval_changed_holds env ret parsed st0 st :
  holds_only_managed st0 st →
  holds_only_managed st0 (on_interval_changed env ret parsed st).2.
Proof.
  intros Hinv. unfold on_interval_changed. destruct (ret =? 0); [|done].
  destruct (clamp_configured_interval_frame (with_interval parsed st))
    as (_ & _ & Hp & Hd & _).
  assert (holds_only_managed st0
            (clamp_configured_interval (with_interval parsed st))) as Hc.
  { by apply (holds_same_memory st0 st). }
  destruct (dualsense_device _); [|done]. by apply engine_holds.
Qed.

Lemma serve_holds st0 st r :
  holds_only_managed st0 st → holds_only_managed st0 (serve st r).
Proof.
  destruct r as [env action udev|env udev|env ret parsed]; cbn [serve].
  - apply (step_holds st0 st (Notify env action udev)).
  - apply (step_holds st0 st (Visit env udev)).
  - apply on_interval_changed_holds.
Qed.

Lemma serve_all_holds rs st0 st :
  holds_only_managed st0 st → holds_only_managed st0 (serve_all rs st).
Proof.
  revert st. unfold serve_all.
  induction rs as [|r rs IH]; intros st Hinv; [done|].
  cbn [foldl]. by apply IH, serve_holds.
Qed.

Lemma usb_for_each_dev_holds env present st0 st :
  holds_only_managed st0 st →
  holds_only_managed st0 (usb_for_each_dev env present st).
Proof.
  revert st. induction present as [|p present IH]; intros st Hinv; [done|].
  cbn [usb_for_each_dev].
  pose proof (step_holds st0 st (Visit env p) Hinv) as Hcb. cbn [step] in Hcb.
  destruct (check_existing_device_cb env p st) as [r st']. cbn [snd] in Hcb.
  destruct (r =? 0); [by apply IH|done].
Qed.

Lemma ds_oc_init_holds env present st0 :
  dualsense_device st0 = None →
  holds_only_managed st0 (ds_oc_init env present st0).
Proof.
  intros Hnone. unfold ds_oc_init. apply usb_for_each_dev_holds.
  destruct (clamp_configured_interval_frame st0) as (_ & _ & Hp & Hd & _).
  intros p d0 Hd0. rewrite Hd, Hp, Hnone. exists d0. split; [done|].
  rewrite decide_False by done. lia.
Qed.

Lemma ds_oc_exit_releases env st0 st :
  holds_only_managed st0 st →
  dualsense_device (ds_oc_exit env st) = None
  ∧ ∀ p d0, devices st0 !! p = Some d0 →
            refcount <$> devices (ds_oc_exit env st) !! p = Some (refcount d0).
Proof.
  intros Hinv. unfold ds_oc_exit.
  destruct (dualsense_device st) as [p|] eqn:Hp.
  - split; [done|]. intros q d0 Hd0.
    pose proof (engine_holds true env st0 st Hinv q d0 Hd0) as (d & Hd & Hr).
    rewrite (proj1 (engine_frame _ _ _)), Hp in Hr.
    cbn. unfold usb_put_dev. destruct (decide (p = q)) as [<-|Hne].
    + rewrite lookup_alter_eq, Hd. cbn. f_equal.
      rewrite decide_True in Hr by done. lia.
    + rewrite lookup_alter_ne, Hd by done. cbn. f_equal.
      rewrite decide_False in Hr by congruence. lia.
  - split; [done|]. intros q d0 Hd0. destruct (Hinv q d0 Hd0) as (d & Hd & Hr).
    rewrite Hp in Hr. rewrite decide_False in Hr by done.
    rewrite Hd. cbn. f_equal. lia.
Qed.

(** X16: over the whole life of the module (load, any sequence of hotplug
    notifications, enumeration visits and rate writes, unload) it holds
    exactly one reference on the device it manages and none on any other,
    and after unloading it manages nothing and every device has the
    reference count it had before loading: no reference leaks and none is
    released twice. *)
Theorem X16_references_are_balanced env1 present rs env2 st0 :
  dualsense_device st0 = None →
  holds_only_managed st0 (serve_all rs (ds_oc_init env1 present st0))
  ∧ dualsense_device (lifetime env1 present rs env2 st0) = None
  ∧ ∀ p d0, devices st0 !! p = Some d0 →
            refcount <$> devices (lifetime env1 present rs env2 st0) !! p
            = Some (refcount d0).
Proof.
  intros Hnone.
  assert (holds_only_managed st0 (serve_all rs (ds_oc_init env1 present st0)))
    as Hinv by (by apply serve_all_holds, ds_oc_init_holds).
  split; [done|]. by apply ds_oc_exit_releases.
Qed.

Lemma X16_references_are_balanced_witness :
  let rs := [Hotplug core_ok USB_DEVICE_ADD ds_ptr';
             Hotplug core_ok USB_DEVICE_REMOVE ds_ptr;
             Hotplug core_ok USB_DEVICE_REMOVE ds_ptr;
             SetRate core_ok 0 8;
             Hotplug core_lock_fails USB_DEVICE_ADD ds_ptr'] in
  holds_only_managed (loaded 1 mixed_bus)
    (serve_all rs (ds_oc_init core_ok [kbd_ptr; ds_ptr; ds_ptr'] (loaded 1 mixed_bus)))
  ∧ dualsense_device
      (lifetime core_ok [kbd_ptr; ds_ptr; ds_ptr'] rs core_ok (loaded 1 mixed_bus))
    = None
  ∧ ∀ p d0, devices (loaded 1 mixed_bus) !! p = Some d0 →
            refcount <$> devices
              (lifetime core_ok [kbd_ptr; ds_ptr; ds_ptr'] rs core_ok
                 (loaded 1 mixed_bus)) !! p
            = Some (refcount d0).
Proof.
  apply (X16_references_are_balanced core_ok [kbd_ptr; ds_ptr; ds_ptr']
           [Hotplug core_ok USB_DEVICE_ADD ds_ptr';
            Hotplug core_ok USB_DEVICE_REMOVE ds_ptr;
            Hotplug core_ok USB_DEVICE_REMOVE ds_ptr;
            SetRate core_ok 0 8;
            Hotplug core_lock_fails USB_DEVICE_ADD ds_ptr'] core_ok
           (loaded 1 mixed_bus)).
  reflexivity.
Defined.

(** ** The rate parameter *)

Lemma clamp_with_interval parsed st :
  0 ≤ parsed →
  clamp_configured_interval (with_interval parsed st)
  = with_interval (Z.max 1 (Z.min 255 parsed)) st.
Proof.
  intros Hp. unfold clamp_configured_interval. cbn.
  destruct (Z.eqb_spec parsed 0) as [->|Hne]; [done|].
  destruct (Z.gtb_spec parsed 255) as [Hgt|Hle]; unfold with_interval; cbn;
    f_equal; lia.
Qed.

(** X17: a write to the rate parameter returns what [param_set_ushort]
    returned; if that is an error, nothing changes; otherwise the effective
    rate is the parsed value brought into 1..255, and a Patch with that rate
    runs if and only if a device is managed. *)
Theorem X17_rate_write env ret parsed st :
  0 ≤ parsed < 65536 →
  let r := on_interval_changed env ret parsed st in
  let rate := Z.max 1 (Z.min 255 parsed) in
  r.1 = ret
  ∧ (ret ≠ 0 → r.2 = st)
  ∧ (ret = 0 → dualsense_device st = None → r.2 = with_interval rate st)
  ∧ (ret = 0 → is_Some (dualsense_device st) →
     r.2 = Patch env (with_interval rate st))
  ∧ (ret = 0 → configured_interval r.2 = rate).
Proof.
  intros Hparsed. cbv zeta. unfold on_interval_changed.
  rewrite clamp_with_interval by lia.
  destruct (Z.eqb_spec ret 0) as [->|Hne].
  - cbn [with_interval dualsense_device].
    destruct (dualsense_device st) as [p|] eqn:Hp; cbn [fst snd].
    + split_and!; try done. intros _.
      by rewrite (proj1 (proj2 (engine_frame _ _ _))).
    + split_and!; try done.
  - cbn [fst snd]. split_and!; done.
Qed.

Lemma X17_rate_write_witness :
  let st := Patch core_ok (acquired 1 ds_ptr ds_bus) in
  let r := on_interval_changed core_ok 0 300 st in
  r.1 = 0
  ∧ (0 ≠ 0 → r.2 = st)
  ∧ (0 = 0 → dualsense_device st = None → r.2 = with_interval 255 st)
  ∧ (0 = 0 → is_Some (dualsense_device st) →
     r.2 = Patch core_ok (with_interval 255 st))
  ∧ (0 = 0 → configured_interval r.2 = 255).
Proof.
  apply (X17_rate_write core_ok 0 300 (Patch core_ok (acquired 1 ds_ptr ds_bus))).
  lia.
Defined.

(** ** The devices the module calls the USB core on *)

Lemma alter_ref_add_identity k p (m : gmap Z usb_device) q :
  is_dualsense <$> alter (ref_add k) p m !! q = is_dualsense <$> m !! q.
Proof.
  destruct (decide (p = q)) as [<-|Hne].
  - rewrite lookup_alter_eq. by destruct (m !! p).
  - by rewrite lookup_alter_ne.
Qed.

Lemma engine_identities restore env st q :
  is_dualsense <$> devices (patch_or_restore_dualsense_endpoints restore env st) !! q
  = is_dualsense <$> devices st !! q.
Proof.
  destruct (engine_frame restore env st) as (_ & _ & Hid). specialize (Hid q).
  destruct (devices (patch_or_restore_dualsense_endpoints restore env st) !! q)
    as [a|], (devices st !! q) as [b|]; cbn in *; try done.
  unfold identity_of in Hid. injection Hid as Hv Hp _.
  unfold is_dualsense. by rewrite Hv, Hp.
Qed.

Lemma engine_calls restore env st :
  ∃ l, calls (patch_or_restore_dualsense_endpoints restore env st) = calls st ++ l
       ∧ Forall (λ c, dualsense_device st = Some (call_device c)) l.
Proof.
  unfold patch_or_restore_dualsense_endpoints.
  destruct (managed_config st) as [[[p d] cfg]|] eqn:Hm.
  - apply managed_config_Some in Hm as (Hp & _).
    destruct (walk_config _ _ _ _) as [cfg' w]. cbn. eexists. split; [done|].
    destruct (w_changed w); [|constructor]. unfold scoped_apply.
    destruct (ret_lock env =? 0); repeat constructor; done.
  - exists []. by rewrite app_nil_r.
Qed.

Lemma engine_calls_inv restore env st0 st :
  calls_inv st0 st →
  calls_inv st0 (patch_or_restore_dualsense_endpoints restore env st).
Proof.
  intros (Ht & Hid & Hcalls). split_and!.
  - by apply engine_tracker_inv.
  - intros q. by rewrite engine_identities.
  - destruct (engine_calls restore env st) as (l & -> & Hl).
    apply Forall_app. split; [done|].
    eapply Forall_impl; [exact Hl|]. intros c Hc. cbn in Hc.
    destruct (Ht _ Hc) as (d & Hd & Hds).
    specialize (Hid (call_device c)). rewrite Hd in Hid. unfold on_dualsense_of.
    destruct (devices st0 !! call_device c) as [d0|]; [|done].
    exists d0. split; [done|]. cbn in Hid. congruence.
Qed.

Lemma acquire_calls_inv env p d st0 st :
  devices st !! p = Some d → is_dualsense d = true →
  calls_inv st0 st → calls_inv st0 (Patch env (acquire p st)).
Proof.
  intros Hd Hds (_ & Hid & Hcalls). apply engine_calls_inv. split_and!.
  - intros q [= <-]. exists (ref_add 1 d). split; [|done].
    cbn. unfold usb_get_dev. by rewrite lookup_alter_eq, Hd.
  - intros q. cbn. unfold usb_get_dev. by rewrite alter_ref_add_identity.
  - done.
Qed.

Lemma release_calls_inv p n st0 st :
  calls_inv st0 st →
  calls_inv st0 (with_device None (usb_put_dev p (devices st)) n st).
Proof.
  intros (_ & Hid & Hcalls). split_and!; [by intros q|intros q|done].
  cbn. unfold usb_put_dev. by rewrite alter_ref_add_identity.
Qed.

Lemma calls_inv_same st0 st st' :
  dualsense_device st' = dualsense_device st →
  devices st' = devices st →
  calls st' = calls st →
  calls_inv st0 st → calls_inv st0 st'.
Proof.
  unfold calls_inv, tracker_inv, same_identities. by intros -> -> ->.
Qed.

Lemma serve_calls_inv st0 st r :
  calls_inv st0 st → calls_inv st0 (serve st r).
Proof.
  intros Hinv. destruct r as [env action udev|env udev|env ret parsed]; cbn [serve].
  - unfold on_usb_notify.
    destruct (devices st !! udev) as [d|] eqn:Hd; [|done].
    destruct (is_dualsense d) eqn:Hds; cbn [negb]; [|done].
    destruct (action =? USB_DEVICE_ADD).
    { destruct (dualsense_device st); [done|].
      by apply (acquire_calls_inv env udev d). }
    destruct (action =? USB_DEVICE_REMOVE); [|done].
    destruct (decide _); [|done]. by apply release_calls_inv.
  - unfold check_existing_device_cb.
    destruct (devices st !! udev) as [d|] eqn:Hd; [|done].
    destruct (is_dualsense d) eqn:Hds; [|done].
    destruct (dualsense_device st); [done|].
    by apply (acquire_calls_inv env udev d).
  - unfold on_interval_changed. destruct (ret =? 0); [|done].
    destruct (clamp_configured_interval_frame (with_interval parsed st))
      as (_ & _ & Hp & Hd & Hc).
    assert (calls_inv st0 (clamp_configured_interval (with_interval parsed st)))
      as Hinv' by (by apply (calls_inv_same st0 st)).
    destruct (dualsense_device _); [|done]. by apply engine_calls_inv.
Qed.

Lemma usb_for_each_dev_calls_inv env present st0 st :
  calls_inv st0 st → calls_inv st0 (usb_for_each_dev env present st).
Proof.
  revert st. induction present as [|p present IH]; intros st Hinv; [done|].
  cbn [usb_for_each_dev].
  pose proof (serve_calls_inv st0 st (Enumerated env p) Hinv) as Hcb.
  cbn [serve] in Hcb.
  destruct (check_existing_device_cb env p st) as [r st']. cbn [snd] in Hcb.
  destruct (r =? 0); [by apply IH|done].
Qed.

(** X18: over the whole life of the module, every lock, reset and unlock
    call it makes is made on a device that passes the vendor/product
    filter: no other device is ever reset. *)
Theorem X18_only_a_dualsense_is_ever_reset env1 present rs env2 st0 :
  dualsense_device st0 = None →
  calls st0 = [] →
  Forall (on_dualsense_of st0) (calls (lifetime env1 present rs env2 st0)).
Proof.
  intros Hnone Hcalls.
  assert (calls_inv st0 (clamp_configured_interval st0)) as H0.
  { destruct (clamp_configured_interval_frame st0) as (_ & _ & Hp & Hd & Hc).
    split_and!.
    - intros p. rewrite Hp, Hnone. done.
    - intros q. by rewrite Hd.
    - rewrite Hc, Hcalls. constructor. }
  assert (calls_inv st0 (serve_all rs (ds_oc_init env1 present st0))) as H1.
  { unfold ds_oc_init, serve_all.
    pose proof (usb_for_each_dev_calls_inv env1 present st0 _ H0) as Hi.
    revert Hi. generalize (usb_for_each_dev env1 present (clamp_configured_interval st0)).
    induction rs as [|r rs IH]; intros st Hst; [done|].
    cbn [foldl]. by apply IH, serve_calls_inv. }
  assert (calls_inv st0 (lifetime env1 present rs env2 st0)) as (_ & _ & H2);
    [|exact H2].
  unfold lifetime, ds_oc_exit.
  destruct (dualsense_device (serve_all rs (ds_oc_init env1 present st0)))
    as [p|]; [|apply H1].
  apply (release_calls_inv p), (engine_calls_inv true), H1.
Qed.

Lemma X18_only_a_dualsense_is_ever_reset_witness :
  Forall (on_dualsense_of (loaded 1 mixed_bus))
    (calls (lifetime core_ok [kbd_ptr; ds_ptr; ds_ptr']
              [Hotplug core_ok USB_DEVICE_ADD kbd_ptr; SetRate core_ok 0 8;
               Hotplug core_ok USB_DEVICE_REMOVE ds_ptr;
               Hotplug core_lock_fails USB_DEVICE_ADD ds_ptr']
              core_ok (loaded 1 mixed_bus))).
Proof.
  apply (X18_only_a_dualsense_is_ever_reset core_ok [kbd_ptr; ds_ptr; ds_ptr']
           [Hotplug core_ok USB_DEVICE_ADD kbd_ptr; SetRate core_ok 0 8;
            Hotplug core_ok USB_DEVICE_REMOVE ds_ptr;
            Hotplug core_lock_fails USB_DEVICE_ADD ds_ptr']
           core_ok (loaded 1 mixed_bus)); reflexivity.
Defined.
